(** * CID-10 ETL (etl_cid10.py): a shallow embedding and its properties

    The development follows the layout of the Python module:

    - [PyStr]: the [str] methods the module calls ([strip], [upper],
      slicing, [split(".")[0]], [in], comparison);
    - [Pandas]: cells, left joins, [sort_values] and [drop_duplicates] on
      frames represented as lists of records;
    - [Etl]: [normalize_code], [extract_root_category], [build_structured],
      [prepare_datasus], the consolidation of [run_etl] and
      [run_etl_from_datasus_dir], and the range inference of
      [read_datasus_official].

    Strings are [string]s of 8-bit characters.  The model is exact on 7-bit
    ASCII text, which is what the code identifiers are made of; characters
    above 127 are neither upper-cased nor treated as blank. *)

From Stdlib Require Import String Ascii List Bool Arith NArith Lia Permutation.
Import ListNotations.
Open Scope string_scope.

(* ================================================================== *)
(** ** Python string primitives *)

Module PyStr.

(** [str.isspace] on one ASCII character: TAB, LF, VT, FF, CR, the four
    separators FS, GS, RS, US and the space. *)
Definition isspace (c : ascii) : bool :=
  let n := nat_of_ascii c in
  ((9 <=? n)%nat && (n <=? 13)%nat) || ((28 <=? n)%nat && (n <=? 32)%nat).

Definition upper_char (c : ascii) : ascii :=
  let n := nat_of_ascii c in
  if ((97 <=? n)%nat && (n <=? 122)%nat) then ascii_of_nat (n - 32) else c.

(** [s.upper()] *)
Fixpoint upper (s : string) : string :=
  match s with
  | EmptyString => EmptyString
  | String c s' => String (upper_char c) (upper s')
  end.

(** [s.lstrip()] *)
Fixpoint lstrip (s : string) : string :=
  match s with
  | EmptyString => EmptyString
  | String c s' => if isspace c then lstrip s' else s
  end.

(** [s.rstrip()] *)
Fixpoint rstrip (s : string) : string :=
  match s with
  | EmptyString => EmptyString
  | String c s' =>
      match rstrip s' with
      | EmptyString => if isspace c then EmptyString else String c EmptyString
      | t => String c t
      end
  end.

(** [s.strip()] *)
Definition strip (s : string) : string := rstrip (lstrip s).

(** Truth value of a string: [if s:] *)
Definition truthy (s : string) : bool :=
  match s with EmptyString => false | _ => true end.

(** [s[:n]] *)
Fixpoint take (n : nat) (s : string) : string :=
  match n, s with
  | S n', String c s' => String c (take n' s')
  | _, _ => EmptyString
  end.

(** [s[n:]] *)
Fixpoint drop (n : nat) (s : string) : string :=
  match n, s with
  | S n', String _ s' => drop n' s'
  | _, _ => s
  end.

(** [s[i]] for [0 <= i]; [None] stands for the [IndexError] Python raises
    when [i] is out of range. *)
Definition item (i : nat) (s : string) : option string :=
  match String.get i s with
  | Some c => Some (String c EmptyString)
  | None => None
  end.

(** [c in s] for a one-character needle *)
Fixpoint contains_char (c : ascii) (s : string) : bool :=
  match s with
  | EmptyString => false
  | String d s' => Ascii.eqb c d || contains_char c s'
  end.

(** [s.split(c)[0]]: everything before the first occurrence of [c] *)
Fixpoint split_head (c : ascii) (s : string) : string :=
  match s with
  | EmptyString => EmptyString
  | String d s' => if Ascii.eqb c d then EmptyString else String d (split_head c s')
  end.

(** [a <= b] on [str]: code-point-wise lexicographic order *)
Definition str_le (a b : string) : bool := String.leb a b.

Definition lower_char (c : ascii) : ascii :=
  let n := nat_of_ascii c in
  if ((65 <=? n)%nat && (n <=? 90)%nat) then ascii_of_nat (n + 32) else c.

(** [s.lower()] *)
Fixpoint lower (s : string) : string :=
  match s with
  | EmptyString => EmptyString
  | String c s' => String (lower_char c) (lower s')
  end.

(** [s.startswith(p)] *)
Fixpoint startswith (p s : string) : bool :=
  match p, s with
  | EmptyString, _ => true
  | String _ _, EmptyString => false
  | String a p', String b s' => Ascii.eqb a b && startswith p' s'
  end.

(** [p in s] for a needle of any length *)
Fixpoint contains_str (p s : string) : bool :=
  startswith p s ||
  match s with
  | EmptyString => false
  | String _ s' => contains_str p s'
  end.

(** [s.endswith(suf)] *)
Definition endswith (suf s : string) : bool :=
  (String.length suf <=? String.length s)%nat &&
  String.eqb (drop (String.length s - String.length suf) s) suf.

(** Predicates used to state what trimming and upper-casing achieve *)
Fixpoint all_space (s : string) : bool :=
  match s with
  | EmptyString => true
  | String c s' => isspace c && all_space s'
  end.

Definition head_space (s : string) : bool :=
  match s with
  | EmptyString => false
  | String c _ => isspace c
  end.

Fixpoint last_space (s : string) : bool :=
  match s with
  | EmptyString => false
  | String c EmptyString => isspace c
  | String _ s' => last_space s'
  end.

Definition islower_char (c : ascii) : bool :=
  let n := nat_of_ascii c in (97 <=? n)%nat && (n <=? 122)%nat.

Fixpoint has_lower (s : string) : bool :=
  match s with
  | EmptyString => false
  | String c s' => islower_char c || has_lower s'
  end.

End PyStr.

(* ================================================================== *)
(** ** Cells *)

Module Pandas.

(** A cell of an object column: [None] is a missing value ([None] or
    [NaN], the values for which [pd.isna] answers [True]). *)
Definition cell := option string.

Definition cell_eqb (a b : cell) : bool :=
  match a, b with
  | None, None => true
  | Some x, Some y => String.eqb x y
  | _, _ => false
  end.

(** [pd.isna] *)
Definition isna (c : cell) : bool :=
  match c with None => true | Some _ => false end.

(** [Series.astype(str)]: a missing value is rendered as the text "nan". *)
Definition astype_str (c : cell) : string :=
  match c with Some s => s | None => "nan" end.

(** [a.fillna(b)] on one cell *)
Definition fillna (a b : cell) : cell :=
  match a with Some _ => a | None => b end.

(** The value a left join gives to a column of the right frame: the matched
    row's cell, or a missing value when no row matched. *)
Definition right_cell {R : Type} (f : R -> cell) (m : option R) : cell :=
  match m with Some r => f r | None => None end.

(** [left.merge(right, left_on=kl, right_on=kr, how="left")].  Every row
    of [left], in order, is paired with each row of [right] carrying the
    same key, or with no row at all when none does.  pandas matches a
    missing key with a missing key. *)
Definition merge_left {L R : Type} (kl : L -> cell) (kr : R -> cell)
    (left : list L) (right : list R) : list (L * option R) :=
  flat_map
    (fun l =>
       match filter (fun r => cell_eqb (kl l) (kr r)) right with
       | [] => [(l, None)]
       | ms => map (fun r => (l, Some r)) ms
       end)
    left.

Section Frames.
Context {A : Type}.

(** [df.drop_duplicates(subset=[col], keep="first")]: a row is dropped when
    an earlier row carries the same key; missing keys count as equal. *)
Fixpoint drop_duplicates_from (key : A -> cell) (seen : list cell)
    (df : list A) : list A :=
  match df with
  | [] => []
  | r :: df' =>
      if existsb (cell_eqb (key r)) seen
      then drop_duplicates_from key seen df'
      else r :: drop_duplicates_from key (key r :: seen) df'
  end.

Definition drop_duplicates (key : A -> cell) (df : list A) : list A :=
  drop_duplicates_from key [] df.

(** [df.sort_values(col, ascending=False)] on a column of strings, as a
    stable insertion sort. *)
Fixpoint insert_desc (key : A -> string) (r : A) (df : list A) : list A :=
  match df with
  | [] => [r]
  | y :: df' =>
      if String.leb (key y) (key r) then r :: df
      else y :: insert_desc key r df'
  end.

Definition sort_values_desc (key : A -> string) (df : list A) : list A :=
  fold_right (insert_desc key) [] df.

(** What any implementation of [sort_values(col, ascending=False)] grants,
    stable or not (pandas sorts with quicksort unless told otherwise): a
    rearrangement of the rows in which no row is followed, anywhere later,
    by a row with a strictly greater key. *)
Inductive sorted_desc (key : A -> string) : list A -> Prop :=
| sorted_desc_nil : sorted_desc key []
| sorted_desc_cons r df :
    Forall (fun y => String.leb (key y) (key r) = true) df ->
    sorted_desc key df -> sorted_desc key (r :: df).

Definition sorts_desc (key : A -> string) (sort : list A -> list A) : Prop :=
  forall df, Permutation df (sort df) /\ sorted_desc key (sort df).

End Frames.

(** A [dict] in insertion order: [d[k] = v] replaces the value of a key
    already present, in place, and appends a new key at the end. *)
Section Dict.
Context {K V : Type} (keq : K -> K -> bool).

Fixpoint dict_set (k : K) (v : V) (d : list (K * V)) : list (K * V) :=
  match d with
  | [] => [(k, v)]
  | (k', v') :: d' =>
      if keq k k' then (k', v) :: d' else (k', v') :: dict_set k v d'
  end.

End Dict.

End Pandas.

(* ================================================================== *)
(** ** The utilities of etl_cid10.py *)

Module Etl.
Import PyStr Pandas.

(** [normalize_code] (lines 11-14) *)
Definition normalize_code (code : cell) : cell :=
  if isna code then None
  else match code with
       | Some s => Some (upper (strip s))
       | None => None
       end.

(** [extract_root_category] (lines 17-21).  [normalize_code] cannot answer
    [None] here because [code] is not missing. *)
Definition extract_root_category (code : cell) : cell :=
  match code with
  | None => None
  | Some _ =>
      match normalize_code code with
      | Some s => Some (split_head "." s)
      | None => None
      end
  end.

(** The lambda of lines 80 and 129: [c if c and "." in c else None] *)
Definition subcategory_of (c : cell) : cell :=
  match c with
  | Some s => if truthy s && contains_char "." s then Some s else None
  | None => None
  end.

(** [_format_subcat] (lines 249-258).  [s[3] != ''] is always true for an
    index inside the string; the guard [len(s) >= 4] keeps [s[3]] in range. *)
Definition _format_subcat (sc : cell) : cell :=
  if isna sc then None
  else match sc with
       | None => None
       | Some raw =>
           let s := upper (strip raw) in
           match (if (4 <=? String.length s)%nat then item 3 s else None) with
           | Some s3 =>
               if negb (String.eqb s3 "") then
                 let fourth := strip s3 in
                 if truthy fourth then Some (take 3 s ++ "." ++ drop 3 s)
                 else Some (take 3 s)
               else Some (take 3 s)
           | None => Some (take 3 s)
           end
       end.

(** The rule of the specification for subcategory codes, word for word, on
    a string [s]: with four or more characters and a non-blank character at
    index 3 the result is [s[:3] + "." + s[3:]], otherwise [s[:3]]. *)
Definition blank_at (i : nat) (s : string) : bool :=
  match String.get i s with
  | Some c => isspace c
  | None => true
  end.

Definition format_subcat_spec (s : string) : string :=
  if (4 <=? String.length s)%nat && negb (blank_at 3 s)
  then take 3 s ++ "." ++ drop 3 s
  else take 3 s.

(** The specification's reading of [normalize]: null for missing and for
    empty input, the trimmed upper-cased string otherwise. *)
Definition normalize_spec (code : cell) : cell :=
  match code with
  | None => None
  | Some EmptyString => None
  | Some s => Some (upper (strip s))
  end.

(** *** Locating the official files (lines 204-209) *)

(** [os.path.join(a, b)] of [posixpath] *)
Definition os_path_join (a b : string) : string :=
  if startswith "/" b then b
  else if negb (truthy a) || endswith "/" a then a ++ b
  else a ++ "/" ++ b.

(** The test of line 207 on one file name *)
Definition csv_name_matches (fragment f : string) : bool :=
  contains_str (lower fragment) (lower f) && endswith ".csv" (lower f).

(** [_find_file_by_fragment], on the listing [os.listdir(dir_path)]
    returns; [None] stands for the [FileNotFoundError] of line 209. *)
Fixpoint _find_file_by_fragment (dir_path fragment : string)
    (files : list string) : option string :=
  match files with
  | [] => None
  | f :: files' =>
      if csv_name_matches fragment f then Some (os_path_join dir_path f)
      else _find_file_by_fragment dir_path fragment files'
  end.

(** *** The four structured tables and the consolidated row *)

Record Chapter := mkChapter {
  ch_chapter_code : cell;
  ch_chapter_title : cell }.

(** A blocks frame without a [chapter_code] column is a list of blocks
    whose [blk_chapter_code] is missing throughout: lines 59-67 then leave
    the categories' [chapter_code] as it is, which is what [fillna] with a
    missing value does. *)
Record Block := mkBlock {
  blk_block_id : cell;
  blk_block_title : cell;
  blk_chapter_code : cell }.

Record Category := mkCategory {
  cat_category_code : cell;
  cat_category_title : cell;
  cat_block_id : cell;
  cat_chapter_code : cell }.

Record Subcategory := mkSubcategory {
  sub_subcategory_code : cell;
  sub_subcategory_title : cell;
  sub_category_code : cell }.

(** The categories frame after its joins with chapters and blocks *)
Record CatFull := mkCatFull {
  cf_category_code : cell;
  cf_category_title : cell;
  cf_block_id : cell;
  cf_block_title : cell;
  cf_chapter_code : cell;
  cf_chapter_title : cell }.

(** A row of the frames [build_structured] and [prepare_datasus] return *)
Record Row := mkRow {
  cid_codigo : cell;
  cid_categoria : cell;
  cid_subcategoria : cell;
  titulo : cell;
  descricao : cell;
  capitulo_codigo : cell;
  capitulo_titulo : cell;
  bloco_codigo : cell;
  bloco_titulo : cell;
  fonte : string }.

(** The two literals written to the [fonte] column (lines 94 and 148) *)
Definition Estruturada : string := "Estruturada".
Definition DATASUS : string := "DATASUS".

(** Lines 55-67, also lines 340-348: categories joined with chapters, then
    with blocks; the two [chapter_code] columns the second join leaves are
    reconciled, the categories' value first. *)
Definition join_chapters_blocks (chapters : list Chapter) (blocks : list Block)
    (categories : list Category) : list CatFull :=
  let cats := merge_left cat_chapter_code ch_chapter_code categories chapters in
  let cats := merge_left (fun cc => cat_block_id (fst cc)) blk_block_id cats blocks in
  map (fun ccb =>
         let c := fst (fst ccb) in
         let ch := snd (fst ccb) in
         let b := snd ccb in
         {| cf_category_code := cat_category_code c;
            cf_category_title := cat_category_title c;
            cf_block_id := cat_block_id c;
            cf_block_title := right_cell blk_block_title b;
            cf_chapter_code :=
              fillna (cat_chapter_code c) (right_cell blk_chapter_code b);
            cf_chapter_title := right_cell ch_chapter_title ch |})
      cats.

(** Line 175: categories joined with blocks, then with chapters.  The
    second join names [chapter_code], so the blocks frame has no such
    column here: a block is its [block_id] and [block_title]. *)
Definition join_blocks_chapters (chapters : list Chapter) (blocks : list Block)
    (categories : list Category) : list CatFull :=
  let cats := merge_left cat_block_id blk_block_id categories blocks in
  let cats := merge_left (fun cb => cat_chapter_code (fst cb)) ch_chapter_code cats chapters in
  map (fun cbc =>
         let c := fst (fst cbc) in
         let b := snd (fst cbc) in
         let ch := snd cbc in
         {| cf_category_code := cat_category_code c;
            cf_category_title := cat_category_title c;
            cf_block_id := cat_block_id c;
            cf_block_title := right_cell blk_block_title b;
            cf_chapter_code := cat_chapter_code c;
            cf_chapter_title := right_cell ch_chapter_title ch |})
      cats.

(** [build_structured] (lines 52-101), on a subcategories frame that has
    its [subcategory_title] column. *)
Definition build_structured (chapters : list Chapter) (blocks : list Block)
    (categories : list Category) (subcats : list Subcategory) : list Row :=
  let cats := join_chapters_blocks chapters blocks categories in
  let full := merge_left sub_category_code cf_category_code subcats cats in
  map (fun sc =>
         let s := fst sc in
         let c := snd sc in
         let codigo := normalize_code (sub_subcategory_code s) in
         {| cid_codigo := codigo;
            cid_categoria := normalize_code (sub_category_code s);
            cid_subcategoria := subcategory_of codigo;
            titulo := sub_subcategory_title s;
            descricao := sub_subcategory_title s;
            capitulo_codigo := right_cell cf_chapter_code c;
            capitulo_titulo := right_cell cf_chapter_title c;
            bloco_codigo := right_cell cf_block_id c;
            bloco_titulo := right_cell cf_block_title c;
            fonte := Estruturada |})
      full.

(** A row of the flat official list, after the column renaming of lines
    110-124: the code and its description (missing when the frame has no
    [descricao] column). *)
Record RawDatasus := mkRawDatasus {
  raw_codigo : cell;
  raw_descricao : cell }.

(** [prepare_datasus] (lines 108-155) *)
Definition prepare_datasus (raw : list RawDatasus) (cats : list CatFull)
    : list Row :=
  let cats_norm :=
    map (fun c =>
           {| cf_category_code := normalize_code (cf_category_code c);
              cf_category_title := cf_category_title c;
              cf_block_id := cf_block_id c;
              cf_block_title := cf_block_title c;
              cf_chapter_code := cf_chapter_code c;
              cf_chapter_title := cf_chapter_title c |}) cats in
  let enriched :=
    merge_left (fun r => extract_root_category (normalize_code (raw_codigo r)))
               cf_category_code raw cats_norm in
  map (fun rc =>
         let r := fst rc in
         let c := snd rc in
         let codigo := normalize_code (raw_codigo r) in
         {| cid_codigo := codigo;
            cid_categoria := extract_root_category codigo;
            cid_subcategoria := subcategory_of codigo;
            titulo := raw_descricao r;
            descricao := raw_descricao r;
            capitulo_codigo := right_cell cf_chapter_code c;
            capitulo_titulo := right_cell cf_chapter_title c;
            bloco_codigo := right_cell cf_block_id c;
            bloco_titulo := right_cell cf_block_title c;
            fonte := DATASUS |})
      enriched.

(** A row whose four ancestry fields are missing *)
Definition null_ancestry (r : Row) : Prop :=
  capitulo_codigo r = None /\ capitulo_titulo r = None /\
  bloco_codigo r = None /\ bloco_titulo r = None.

(** The ancestry fields of a row are those of a joined category *)
Definition ancestry_from (c : CatFull) (r : Row) : Prop :=
  bloco_codigo r = cf_block_id c /\ bloco_titulo r = cf_block_title c /\
  capitulo_codigo r = cf_chapter_code c /\ capitulo_titulo r = cf_chapter_title c.

(** A joined category, read against the three tables it was joined from:
    code, title and block are the category's; the chapter code is the
    category's or, when that is missing, the one of a block with the
    category's [block_id]; the titles are missing or those of a block and
    of a chapter found under the category's own keys. *)
Definition joined_from (chapters : list Chapter) (blocks : list Block)
    (c : Category) (cf : CatFull) : Prop :=
  cf_category_code cf = cat_category_code c /\
  cf_category_title cf = cat_category_title c /\
  cf_block_id cf = cat_block_id c /\
  (cf_chapter_code cf = cat_chapter_code c \/
   (cat_chapter_code c = None /\
    exists b, In b blocks /\ blk_block_id b = cat_block_id c /\
              cf_chapter_code cf = blk_chapter_code b)) /\
  (cf_block_title cf = None \/
   exists b, In b blocks /\ blk_block_id b = cat_block_id c /\
             cf_block_title cf = blk_block_title b) /\
  (cf_chapter_title cf = None \/
   exists ch, In ch chapters /\ ch_chapter_code ch = cat_chapter_code c /\
              cf_chapter_title cf = ch_chapter_title ch).

(** What every row of the written frame satisfies: its code is in normal
    form, its description is its title, its subcategory field is missing or
    is the code itself, and it is missing exactly when the code is its own
    root category. *)
Definition row_invariant (r : Row) : Prop :=
  normalize_code (cid_codigo r) = cid_codigo r /\
  descricao r = titulo r /\
  (cid_subcategoria r = None \/ cid_subcategoria r = cid_codigo r) /\
  (cid_subcategoria r = None <->
   extract_root_category (cid_codigo r) = cid_codigo r).

(** Line 180 (and 358): the code column is normalised once more. *)
Definition renormalize (r : Row) : Row :=
  {| cid_codigo := normalize_code (cid_codigo r);
     cid_categoria := cid_categoria r;
     cid_subcategoria := cid_subcategoria r;
     titulo := titulo r;
     descricao := descricao r;
     capitulo_codigo := capitulo_codigo r;
     capitulo_titulo := capitulo_titulo r;
     bloco_codigo := bloco_codigo r;
     bloco_titulo := bloco_titulo r;
     fonte := fonte r |}.

(** Lines 179-184 (and 357-361) with the sort left open: concatenation,
    second normalisation, sort on [fonte] descending, duplicates dropped
    on [cid_codigo] keeping the first. *)
Definition consolidate_with (sort : list Row -> list Row)
    (structured_full datasus_enriched : list Row) : list Row :=
  let df := (structured_full ++ datasus_enriched)%list in
  let df := map renormalize df in
  let df := sort df in
  drop_duplicates cid_codigo df.

Definition consolidate (structured_full datasus_enriched : list Row)
    : list Row :=
  consolidate_with (sort_values_desc fonte) structured_full datasus_enriched.

(** The frame written by [run_etl] (lines 162-197): every consolidated row
    with the date of the run in [dt_atualizacao]. *)
Definition run_etl (today : string) (datasus_raw : list RawDatasus)
    (chapters : list Chapter) (blocks : list Block)
    (categories : list Category) (subcats : list Subcategory)
    : list (Row * string) :=
  let structured_full := build_structured chapters blocks categories subcats in
  let cats := join_blocks_chapters chapters blocks categories in
  let datasus_enriched := prepare_datasus datasus_raw cats in
  map (fun r => (r, today)) (consolidate structured_full datasus_enriched).

(** The count printed on line 193: rows lacking a block or a chapter *)
Definition missing_hier (df : list Row) : nat :=
  List.length
    (filter (fun r => isna (bloco_codigo r) || isna (capitulo_codigo r)) df).

(** *** The official distribution ([read_datasus_official], lines 212-327) *)

Record RawRange := mkRawRange {
  CATINIC : cell;
  CATFIM : cell;
  range_DESCRICAO : cell }.

Record RawCategory := mkRawCategory {
  CAT : cell;
  cat_DESCRICAO : cell }.

Record RawSubcategory := mkRawSubcategory {
  SUBCAT : cell;
  sub_DESCRICAO : cell }.

(** [_belongs_to_range] (lines 268-269) *)
Definition _belongs_to_range (code3 start end_ : string) : bool :=
  str_le start code3 && str_le code3 end_.

(** Lines 272-273 and 277-278: the endpoints, trimmed and upper-cased *)
Definition ranges_of (raw : list RawRange) : list (string * string) :=
  map (fun r => (upper (strip (astype_str (CATINIC r))),
                 upper (strip (astype_str (CATFIM r))))) raw.

(** Lines 274 and 279 *)
Definition titles_of (raw : list RawRange) : list string :=
  map (fun r => strip (astype_str (range_DESCRICAO r))) raw.

Definition range_eqb (a b : string * string) : bool :=
  String.eqb (fst a) (fst b) && String.eqb (snd a) (snd b).

(** The value stored under a range in [block_map] and [chapter_map]:
    the identifier ["{start}-{end}"] and the title. *)
Record RangeInfo := mkRangeInfo {
  info_id : string;
  info_title : string }.

(** Lines 282-294: [block_map] and [chapter_map].  One turn of the loop
    stores the entry of a range under the key [(start, end)]. *)
Definition range_map_step (d : list ((string * string) * RangeInfo))
    (rt : (string * string) * string) : list ((string * string) * RangeInfo) :=
  let start := fst (fst rt) in
  let end_ := snd (fst rt) in
  dict_set range_eqb (start, end_)
    {| info_id := start ++ "-" ++ end_; info_title := snd rt |} d.

Definition range_map (ranges : list (string * string)) (titles : list string)
    : list ((string * string) * RangeInfo) :=
  fold_left range_map_step (combine ranges titles) [].

(** The loops of lines 303-306 and 307-310: the payload of the first item,
    in the order of iteration, whose range contains [code3]; [None] when
    the loop ends without a [break]. *)
Fixpoint find_range {P : Type} (code3 : string)
    (items : list ((string * string) * P)) : option P :=
  match items with
  | [] => None
  | ((start, end_), info) :: rest =>
      if _belongs_to_range code3 start end_ then Some info
      else find_range code3 rest
  end.

(** The loop of lines 320-323 for one block [(start, end)] *)
Fixpoint find_block_chapter {P : Type} (start end_ : string)
    (items : list ((string * string) * P)) : option P :=
  match items with
  | [] => None
  | ((cstart, cend), cinfo) :: rest =>
      if _belongs_to_range start cstart cend || _belongs_to_range end_ cstart cend
      then Some cinfo
      else find_block_chapter start end_ rest
  end.

(** Vocabulary for the statements about the two loops: a range contains a
    code; a range contains one of the two endpoints of a block; the
    identifier ["{start}-{end}"] of a range. *)
Definition in_range (code3 : string) (r : string * string) : bool :=
  _belongs_to_range code3 (fst r) (snd r).

Definition endpoint_in_range (start end_ : string) (r : string * string) : bool :=
  _belongs_to_range start (fst r) (snd r) || _belongs_to_range end_ (fst r) (snd r).

Definition range_id (r : string * string) : string :=
  fst r ++ "-" ++ snd r.

(** [read_datasus_official] after the four files are read, on a
    subcategories file that has its [DESCRICAO] column. *)
Definition read_datasus_official (chapters_raw blocks_raw : list RawRange)
    (categories_raw : list RawCategory) (subcats_raw : list RawSubcategory)
    : list Chapter * list Block * list Category * list Subcategory :=
  let chapters :=
    map (fun r =>
           {| ch_chapter_code :=
                Some (strip (astype_str (CATINIC r)) ++ "-"
                      ++ strip (astype_str (CATFIM r)));
              ch_chapter_title := Some (strip (astype_str (range_DESCRICAO r))) |})
        chapters_raw in
  let subcats :=
    map (fun r =>
           {| sub_subcategory_code := _format_subcat (SUBCAT r);
              sub_subcategory_title := Some (strip (astype_str (sub_DESCRICAO r)));
              sub_category_code := Some (upper (take 3 (astype_str (SUBCAT r)))) |})
        subcats_raw in
  let block_ranges := ranges_of blocks_raw in
  let chapter_ranges := ranges_of chapters_raw in
  let block_map := range_map block_ranges (titles_of blocks_raw) in
  let chapter_map := range_map chapter_ranges (titles_of chapters_raw) in
  let categories :=
    map (fun r =>
           let code := upper (strip (astype_str (CAT r))) in
           {| cat_category_code := Some code;
              cat_category_title := Some (strip (astype_str (cat_DESCRICAO r)));
              cat_block_id := option_map info_id (find_range code block_map);
              cat_chapter_code := option_map info_id (find_range code chapter_map) |})
        categories_raw in
  let blocks :=
    map (fun r =>
           let start := upper (strip (astype_str (CATINIC r))) in
           let end_ := upper (strip (astype_str (CATFIM r))) in
           {| blk_block_id :=
                Some (strip (astype_str (CATINIC r)) ++ "-"
                      ++ strip (astype_str (CATFIM r)));
              blk_block_title := Some (strip (astype_str (range_DESCRICAO r)));
              blk_chapter_code :=
                option_map info_id (find_block_chapter start end_ chapter_map) |})
        blocks_raw in
  (chapters, blocks, categories, subcats).

(** The frame written by [run_etl_from_datasus_dir] (lines 333-371) *)
Definition run_etl_from_datasus_dir (today : string)
    (chapters_raw blocks_raw : list RawRange)
    (categories_raw : list RawCategory) (subcats_raw : list RawSubcategory)
    : list (Row * string) :=
  match read_datasus_official chapters_raw blocks_raw categories_raw subcats_raw with
  | (chapters, blocks, categories, subcats) =>
      let structured_full := build_structured chapters blocks categories subcats in
      let cats := join_chapters_blocks chapters blocks categories in
      let datasus_raw :=
        map (fun r => {| raw_codigo := cid_codigo r;
                         raw_descricao := descricao r |}) structured_full in
      let datasus_enriched := prepare_datasus datasus_raw cats in
      map (fun r => (r, today)) (consolidate structured_full datasus_enriched)
  end.

End Etl.

(* ================================================================== *)
(** ** Sample rows *)

Module Samples.
Import Pandas Etl.

(** A structured row for A00.0 that lacks its whole ancestry *)
Definition structured_sparse : Row :=
  {| cid_codigo := Some "A00.0";
     cid_categoria := Some "A00";
     cid_subcategoria := Some "A00.0";
     titulo := Some "Cholera due to Vibrio cholerae 01";
     descricao := Some "Cholera due to Vibrio cholerae 01";
     capitulo_codigo := None;
     capitulo_titulo := None;
     bloco_codigo := None;
     bloco_titulo := None;
     fonte := Estruturada |}.

(** The official row for the same code, written in lower case, with its
    ancestry complete *)
Definition official_full : Row :=
  {| cid_codigo := Some "a00.0";
     cid_categoria := Some "A00";
     cid_subcategoria := Some "A00.0";
     titulo := Some "Colera";
     descricao := Some "Colera";
     capitulo_codigo := Some "A00-B99";
     capitulo_titulo := Some "Infectious diseases";
     bloco_codigo := Some "A00-A09";
     bloco_titulo := Some "Intestinal infections";
     fonte := DATASUS |}.

(** An official row for a code the structured source does not have *)
Definition official_new : Row :=
  {| cid_codigo := Some " b01.9 ";
     cid_categoria := Some "B01";
     cid_subcategoria := Some "B01.9";
     titulo := Some "Varicela";
     descricao := Some "Varicela";
     capitulo_codigo := Some "A00-B99";
     capitulo_titulo := Some "Infectious diseases";
     bloco_codigo := Some "B00-B09";
     bloco_titulo := Some "Viral infections";
     fonte := DATASUS |}.

(** A small structured hierarchy with unique keys *)
Definition chapters1 : list Chapter :=
  [mkChapter (Some "A00-B99") (Some "Infectious diseases")].

Definition blocks1 : list Block :=
  [mkBlock (Some "A00-A09") (Some "Intestinal infections") None].

Definition categories1 : list Category :=
  [mkCategory (Some "A00") (Some "Cholera") (Some "A00-A09") (Some "A00-B99");
   mkCategory (Some "A01") (Some "Typhoid") (Some "A00-A09") (Some "A00-B99")].

Definition subcats1 : list Subcategory :=
  [mkSubcategory (Some "A00.0") (Some "Classical cholera") (Some "A00");
   mkSubcategory (Some "A00.1") (Some "Cholera eltor") (Some "A00");
   mkSubcategory (Some "Z99.9") (Some "Unplaced") (Some "Z99")].

Definition cats1 : list CatFull :=
  [mkCatFull (Some "a00") (Some "Cholera") (Some "A00-A09")
             (Some "Intestinal infections") (Some "A00-B99")
             (Some "Infectious diseases")].

Definition raw1 : list RawDatasus :=
  [mkRawDatasus (Some " a00.1") (Some "Cholera eltor");
   mkRawDatasus None (Some "No code")].

End Samples.

(* ================================================================== *)
(** ** Facts about the string primitives *)

Import PyStr Pandas Etl.

Lemma isspace_upper_char (c : ascii) : isspace (upper_char c) = isspace c.
Proof. destruct c as [[] [] [] [] [] [] [] []]; reflexivity. Qed.

Lemma upper_char_idem (c : ascii) : upper_char (upper_char c) = upper_char c.
Proof. destruct c as [[] [] [] [] [] [] [] []]; reflexivity. Qed.

Lemma islower_upper_char (c : ascii) : islower_char (upper_char c) = false.
Proof. destruct c as [[] [] [] [] [] [] [] []]; reflexivity. Qed.

Lemma upper_idem (s : string) : upper (upper s) = upper s.
Proof.
  induction s as [|c s IH]; simpl; [reflexivity|].
  now rewrite upper_char_idem, IH.
Qed.

Lemma upper_app (a b : string) : upper (a ++ b) = upper a ++ upper b.
Proof. induction a as [|c a IH]; simpl; [reflexivity|now rewrite IH]. Qed.

Lemma has_lower_upper (s : string) : has_lower (upper s) = false.
Proof.
  induction s as [|c s IH]; simpl; [reflexivity|].
  now rewrite islower_upper_char, IH.
Qed.

Lemma all_space_upper (s : string) : all_space (upper s) = all_space s.
Proof.
  induction s as [|c s IH]; simpl; [reflexivity|].
  now rewrite isspace_upper_char, IH.
Qed.

Lemma lstrip_upper (s : string) : lstrip (upper s) = upper (lstrip s).
Proof.
  induction s as [|c s IH]; simpl; [reflexivity|].
  rewrite isspace_upper_char. now destruct (isspace c).
Qed.

Lemma rstrip_upper (s : string) : rstrip (upper s) = upper (rstrip s).
Proof.
  induction s as [|c s IH]; simpl; [reflexivity|].
  rewrite IH. destruct (rstrip s) as [|d t]; simpl; [|reflexivity].
  rewrite isspace_upper_char. now destruct (isspace c).
Qed.

Lemma strip_upper (s : string) : strip (upper s) = upper (strip s).
Proof. unfold strip. now rewrite lstrip_upper, rstrip_upper. Qed.

(** [lstrip] removes a blank prefix and leaves no blank in front. *)
Lemma lstrip_split (s : string) :
  exists l, s = l ++ lstrip s /\ all_space l = true /\ head_space (lstrip s) = false.
Proof.
  induction s as [|c s (l & E & Hl & Hh)].
  - exists EmptyString. now simpl.
  - simpl. destruct (isspace c) eqn:Hc.
    + exists (String c l). simpl. rewrite Hc, Hl. now rewrite <- E.
    + exists EmptyString. simpl. now rewrite Hc.
Qed.

(** [rstrip] removes a blank suffix, leaves no blank at the end and keeps
    the first character of a string that starts with a non-blank. *)
Lemma rstrip_split (s : string) :
  exists r, s = rstrip s ++ r /\ all_space r = true /\ last_space (rstrip s) = false.
Proof.
  induction s as [|c s (r & E & Hr & Hl)].
  - exists EmptyString. now simpl.
  - simpl. destruct (rstrip s) as [|d t] eqn:Hs.
    + simpl in E. subst r. destruct (isspace c) eqn:Hc.
      * exists (String c s). simpl. now rewrite Hc, Hr.
      * exists s. simpl. now rewrite Hc.
    + exists r. simpl in *. split; [now rewrite <- E|now split].
Qed.

Lemma rstrip_head (s : string) :
  head_space s = false -> head_space (rstrip s) = false.
Proof.
  destruct s as [|c s]; simpl; [easy|]. intros Hc.
  destruct (rstrip s); [rewrite Hc|]; simpl; auto.
Qed.

Lemma lstrip_fixed (s : string) : head_space s = false -> lstrip s = s.
Proof. destruct s as [|c s]; simpl; [easy|]. now intros ->. Qed.

Lemma rstrip_idem (s : string) : rstrip (rstrip s) = rstrip s.
Proof.
  induction s as [|c s IH]; simpl; [reflexivity|].
  destruct (rstrip s) as [|d t] eqn:Hs.
  - destruct (isspace c) eqn:Hc; simpl; [reflexivity|now rewrite Hc].
  - change (rstrip (String c (String d t))) with
      (match rstrip (String d t) with
       | EmptyString => if isspace c then EmptyString else String c EmptyString
       | u => String c u
       end).
    now rewrite IH.
Qed.

Lemma strip_head (s : string) : head_space (strip s) = false.
Proof.
  unfold strip. apply rstrip_head.
  destruct (lstrip_split s) as (l & _ & _ & H). exact H.
Qed.

Lemma strip_idem (s : string) : strip (strip s) = strip s.
Proof.
  unfold strip at 1. rewrite (lstrip_fixed (strip s) (strip_head s)).
  unfold strip. apply rstrip_idem.
Qed.

(** What [strip] does, stated on its result: blanks are cut from both
    ends, and only blanks. *)
Lemma strip_split (s : string) :
  exists l r, s = l ++ strip s ++ r /\ all_space l = true /\ all_space r = true
              /\ head_space (strip s) = false /\ last_space (strip s) = false.
Proof.
  destruct (lstrip_split s) as (l & El & Hl & _).
  destruct (rstrip_split (lstrip s)) as (r & Er & Hr & Hlast).
  exists l, r. unfold strip at 1. rewrite <- Er.
  repeat split; auto using strip_head.
Qed.

Lemma head_space_upper (s : string) : head_space (upper s) = head_space s.
Proof. destruct s; simpl; auto using isspace_upper_char. Qed.

Lemma last_space_upper (s : string) : last_space (upper s) = last_space s.
Proof.
  induction s as [|c s IH]; simpl; [reflexivity|].
  destruct s as [|d t]; simpl in *; auto using isspace_upper_char.
Qed.

(* ================================================================== *)
(** ** Code normaliser *)

(** C5, as the specification words it, fails on the empty string: the
    specification's [normalize] answers null there, [normalize_code]
    answers the empty string. *)
Lemma normalize_code_empty_is_not_null :
  normalize_spec (Some "") = None /\
  normalize_code (Some "") = Some "" /\
  normalize_code (Some "") <> normalize_spec (Some "").
Proof. repeat split; discriminate. Qed.

(** C5 (amended). [normalize_code] answers null for a missing input and
    only for it; for every other input, the empty string included, it
    answers the upper-cased input with the blanks at both ends cut, and
    nothing else: the result starts and ends with a non-blank (or is
    empty), holds no lower-case letter, and the upper-cased input is the
    result between two runs of blanks. *)
Theorem normalize_code_trims_and_uppercases :
  normalize_code None = None /\
  normalize_code (Some "") = Some "" /\
  forall s : string,
    exists t l r,
      normalize_code (Some s) = Some t /\
      upper s = l ++ t ++ r /\
      all_space l = true /\ all_space r = true /\
      head_space t = false /\ last_space t = false /\
      has_lower t = false.
Proof.
  split; [reflexivity|]. split; [reflexivity|].
  intros s. destruct (strip_split s) as (l & r & E & Hl & Hr & Hh & Ht).
  exists (upper (strip s)), (upper l), (upper r).
  split; [reflexivity|].
  split; [rewrite <- !upper_app; now rewrite <- E|].
  rewrite !all_space_upper, head_space_upper, last_space_upper, has_lower_upper.
  now repeat split.
Qed.

(** C6. [normalize_code] is idempotent: normalising a normalised code
    changes nothing, for a missing input as for a string. *)
Theorem normalize_code_idempotent (x : cell) :
  normalize_code (normalize_code x) = normalize_code x.
Proof.
  destruct x as [s|]; [|reflexivity].
  unfold normalize_code. cbn [isna]. f_equal.
  now rewrite strip_upper, strip_idem, upper_idem.
Qed.

(* ================================================================== *)
(** ** Subcategory code formatting *)

(** C4, read on the raw code as it is written, fails on a lower-case raw
    code (and on one with blanks around it): the formatting rule is applied
    to the trimmed, upper-cased code, not to the raw one. *)
Lemma format_subcat_raw_lowercase :
  _format_subcat (Some "a001") = Some "A00.1" /\
  format_subcat_spec "a001" = "a00.1" /\
  _format_subcat (Some " A001") = Some "A00.1" /\
  format_subcat_spec " A001" = " A0.01".
Proof. repeat split. Qed.

(** C4 (amended). [_format_subcat] first trims and upper-cases the raw
    code; on the result [s] it follows the rule: with four or more
    characters and a non-blank character at index 3 the answer is
    [s[:3] + "." + s[3:]], otherwise it is [s[:3]].  A missing raw code
    stays missing; "A001" gives "A00.1" and "A00 " gives "A00". *)
Theorem format_subcat_on_normalized_code :
  _format_subcat None = None /\
  (forall raw : string,
     _format_subcat (Some raw) = Some (format_subcat_spec (upper (strip raw)))) /\
  (forall s : string,
     format_subcat_spec s =
       match String.get 3 s with
       | Some c => if isspace c then take 3 s else take 3 s ++ "." ++ drop 3 s
       | None => take 3 s
       end) /\
  _format_subcat (Some "A001") = Some "A00.1" /\
  _format_subcat (Some "A00 ") = Some "A00".
Proof.
  split; [reflexivity|]. split; [|split; [|split; reflexivity]].
  - intros raw. unfold _format_subcat, format_subcat_spec, blank_at, item.
    cbn [isna]. generalize (upper (strip raw)). intros s.
    destruct s as [|a [|b [|c [|d t]]]]; try reflexivity.
    cbn [String.length Nat.leb String.get andb negb].
    unfold strip. cbn [lstrip].
    destruct (isspace d) eqn:Hd; cbn; rewrite ?Hd; reflexivity.
  - intros s. unfold format_subcat_spec, blank_at.
    destruct s as [|a [|b [|c [|d t]]]]; try reflexivity.
    cbn [String.length Nat.leb String.get andb].
    now destruct (isspace d).
Qed.

(* ================================================================== *)
(** ** Range matcher *)

Section FirstMatch.
Context {A : Type} (f : A -> bool).

Lemma find_first_split (l : list A) (x : A) :
  find f l = Some x <->
  exists pre post, l = (pre ++ x :: post)%list /\ f x = true /\
                   Forall (fun y => f y = false) pre.
Proof.
  induction l as [|a l IH]; simpl.
  - split; [discriminate|]. intros (pre & post & E & _). now destruct pre.
  - destruct (f a) eqn:Ha.
    + split.
      * intros [= ->]. exists [], l. now repeat split.
      * intros (pre & post & E & Hx & Hpre). destruct pre as [|b pre].
        -- now injection E as -> _.
        -- injection E as -> _. inversion Hpre; congruence.
    + rewrite IH. split.
      * intros (pre & post & -> & Hx & Hpre). exists (a :: pre), post.
        repeat split; auto.
      * intros (pre & post & E & Hx & Hpre). destruct pre as [|b pre].
        -- injection E as -> _. congruence.
        -- injection E as -> ->. exists pre, post.
           repeat split; auto. now inversion Hpre.
Qed.

Lemma find_first_none (l : list A) :
  find f l = None <-> Forall (fun y => f y = false) l.
Proof.
  induction l as [|a l IH]; simpl.
  - split; auto.
  - destruct (f a) eqn:Ha.
    + split; [discriminate|]. intros H. inversion H; congruence.
    + rewrite IH. split; [now constructor|now inversion 1].
Qed.

End FirstMatch.

Lemma find_range_find {P : Type} (code3 : string)
    (items : list ((string * string) * P)) :
  find_range code3 items =
  option_map snd (find (fun it => in_range code3 (fst it)) items).
Proof.
  induction items as [|[[s e] p] items IH]; simpl; [reflexivity|].
  unfold in_range at 1. simpl. now destruct (_belongs_to_range code3 s e).
Qed.

Lemma find_block_chapter_find {P : Type} (start end_ : string)
    (items : list ((string * string) * P)) :
  find_block_chapter start end_ items =
  option_map snd (find (fun it => endpoint_in_range start end_ (fst it)) items).
Proof.
  induction items as [|[[s e] p] items IH]; simpl; [reflexivity|].
  unfold endpoint_in_range at 1. simpl.
  now destruct (_belongs_to_range start s e || _belongs_to_range end_ s e).
Qed.

Lemma range_eqb_eq (a b : string * string) : range_eqb a b = true -> a = b.
Proof.
  destruct a, b. unfold range_eqb. simpl.
  rewrite andb_true_iff, !String.eqb_eq. now intros [-> ->].
Qed.

(** Iterating over the dictionary built from the ranges visits the ranges
    in their input order: a range met twice keeps its first place, and its
    identifier does not depend on the title stored last. *)
Section RangeMap.
Variable test : string * string -> bool.

Let first_id (d : list ((string * string) * RangeInfo)) : option string :=
  option_map (fun it => info_id (snd it)) (find (fun it => test (fst it)) d).

Let well_keyed (d : list ((string * string) * RangeInfo)) : Prop :=
  Forall (fun it => info_id (snd it) = range_id (fst it)) d.

Lemma dict_set_first_id k v d :
  well_keyed d -> info_id v = range_id k ->
  well_keyed (dict_set range_eqb k v d) /\
  first_id (dict_set range_eqb k v d) =
    match first_id d with
    | Some x => Some x
    | None => if test k then Some (range_id k) else None
    end.
Proof.
  unfold well_keyed, first_id. intros Hd Hv.
  induction d as [|[k' v'] d IH]; simpl.
  - split; [now repeat constructor|]. destruct (test k); simpl; congruence.
  - inversion Hd as [|? ? Hk' Hd']; subst. simpl in Hk'.
    destruct (range_eqb k k') eqn:Hk.
    + apply range_eqb_eq in Hk. subst k'. split.
      * constructor; auto.
      * simpl. destruct (test k); simpl; [congruence|].
        now destruct (find (fun it => test (fst it)) d).
    + destruct (IH Hd') as [W E]. split; [now constructor|].
      simpl. destruct (test k'); simpl; [reflexivity|exact E].
Qed.

Lemma range_map_first_id_from rts d :
  well_keyed d ->
  first_id (fold_left range_map_step rts d) =
  match first_id d with
  | Some x => Some x
  | None => option_map range_id (find test (map fst rts))
  end.
Proof.
  revert d. induction rts as [|[[s e] t] rts IH]; intros d Hd.
  - cbn [fold_left map find option_map]. now destruct (first_id d).
  - destruct (dict_set_first_id (s, e)
                {| info_id := s ++ "-" ++ e; info_title := t |} d Hd eq_refl)
      as [W E].
    cbn [fold_left map find fst]. unfold range_map_step at 2.
    cbn [fst snd]. rewrite (IH _ W), E.
    destruct (first_id d); [reflexivity|].
    now destruct (test (s, e)).
Qed.

Lemma range_map_first_id (raw : list RawRange) :
  option_map (fun it => info_id (snd it))
    (find (fun it => test (fst it)) (range_map (ranges_of raw) (titles_of raw))) =
  option_map range_id (find test (ranges_of raw)).
Proof.
  unfold range_map.
  pose proof (range_map_first_id_from
                (combine (ranges_of raw) (titles_of raw)) []) as H.
  unfold first_id, well_keyed in H. rewrite H by constructor. clear H.
  cbn [find option_map].
  replace (map fst (combine (ranges_of raw) (titles_of raw)))
    with (ranges_of raw); [reflexivity|].
  unfold ranges_of, titles_of.
  induction raw as [|r raw IH]; [reflexivity|].
  cbn [map combine fst]. f_equal. exact IH.
Qed.

End RangeMap.

Lemma belongs_to_range_compare (code3 s e : string) :
  _belongs_to_range code3 s e = true <->
  (s ?= code3) <> Gt /\ (code3 ?= e) <> Gt.
Proof.
  unfold _belongs_to_range, str_le, String.leb. rewrite andb_true_iff.
  destruct (s ?= code3), (code3 ?= e); split; intros [? ?];
    split; congruence.
Qed.

(** C2. The range matcher answers the payload of the first range, in input
    order, with [start <= code3 <= end] in the lexicographic order of
    strings, and null when no range contains the code.  The categories of
    the official distribution get their block and their chapter this way,
    from the block and chapter ranges in file order.  "B02" is matched by
    ("A00","B99","Ch1"), "C00" is not. *)
Theorem range_matcher_first_match :
  (forall (P : Type) (code3 : string) (items : list ((string * string) * P)) (p : P),
      find_range code3 items = Some p <->
      exists pre s e post,
        items = (pre ++ ((s, e), p) :: post)%list /\
        _belongs_to_range code3 s e = true /\
        Forall (fun it => _belongs_to_range code3 (fst (fst it)) (snd (fst it)) = false) pre) /\
  (forall (P : Type) (code3 : string) (items : list ((string * string) * P)),
      find_range code3 items = None <->
      Forall (fun it => _belongs_to_range code3 (fst (fst it)) (snd (fst it)) = false) items) /\
  (forall code3 s e : string,
      _belongs_to_range code3 s e = true <->
      (s ?= code3) <> Gt /\ (code3 ?= e) <> Gt) /\
  (forall chapters_raw blocks_raw categories_raw subcats_raw,
      let categories :=
        snd (fst (read_datasus_official chapters_raw blocks_raw
                    categories_raw subcats_raw)) in
      let code_of r := upper (strip (astype_str (CAT r))) in
      map cat_block_id categories =
        map (fun r => option_map range_id
                        (find (in_range (code_of r)) (ranges_of blocks_raw)))
            categories_raw /\
      map cat_chapter_code categories =
        map (fun r => option_map range_id
                        (find (in_range (code_of r)) (ranges_of chapters_raw)))
            categories_raw) /\
  find_range "B02" [(("A00", "B99"), "Ch1")] = Some "Ch1" /\
  find_range "C00" [(("A00", "B99"), "Ch1")] = None.
Proof.
  split; [|split; [|split; [|split; [|split; reflexivity]]]].
  - intros P code3 items p. rewrite find_range_find. split.
    + destruct (find _ items) as [[[s e] q]|] eqn:Hf; [|discriminate].
      intros [= ->]. apply find_first_split in Hf.
      destruct Hf as (pre & post & E & Hx & Hpre).
      now exists pre, s, e, post.
    + intros (pre & s & e & post & E & Hx & Hpre).
      assert (find (fun it => in_range code3 (fst it)) items = Some ((s, e), p))
        as ->; [|reflexivity].
      apply find_first_split. now exists pre, post.
  - intros P code3 items. rewrite find_range_find.
    pose proof (find_first_none (fun it => in_range code3 (fst it)) items) as H.
    cbv beta in H. unfold in_range in *. rewrite <- H.
    destruct (find _ items); simpl; split; congruence.
  - apply belongs_to_range_compare.
  - intros chapters_raw blocks_raw categories_raw subcats_raw.
    cbn [read_datasus_official fst snd]. rewrite !map_map. cbn [cat_block_id cat_chapter_code].
    split; apply map_ext; intros r; rewrite find_range_find;
      rewrite <- (range_map_first_id (in_range _));
      now destruct (find _ (range_map _ _)).
Qed.

(* ================================================================== *)
(** ** Blocks and their chapter *)

(** C7. A block gets the chapter of the first chapter range, in input
    order, that contains the block's start or the block's end; one endpoint
    is enough, so a block that straddles two chapters goes to whichever of
    them comes first in the chapter list. *)
Theorem block_chapter_by_either_endpoint :
  (forall (P : Type) (start end_ : string)
          (items : list ((string * string) * P)) (p : P),
      find_block_chapter start end_ items = Some p <->
      exists pre cs ce post,
        items = (pre ++ ((cs, ce), p) :: post)%list /\
        (_belongs_to_range start cs ce = true \/
         _belongs_to_range end_ cs ce = true) /\
        Forall (fun it =>
                  _belongs_to_range start (fst (fst it)) (snd (fst it)) = false /\
                  _belongs_to_range end_ (fst (fst it)) (snd (fst it)) = false) pre) /\
  (forall (P : Type) (start end_ : string)
          (items : list ((string * string) * P)),
      find_block_chapter start end_ items = None <->
      Forall (fun it =>
                _belongs_to_range start (fst (fst it)) (snd (fst it)) = false /\
                _belongs_to_range end_ (fst (fst it)) (snd (fst it)) = false) items) /\
  (forall chapters_raw blocks_raw categories_raw subcats_raw,
      let blocks :=
        snd (fst (fst (read_datasus_official chapters_raw blocks_raw
                         categories_raw subcats_raw))) in
      map blk_chapter_code blocks =
        map (fun b => option_map range_id
                        (find (endpoint_in_range (fst b) (snd b))
                              (ranges_of chapters_raw)))
            (ranges_of blocks_raw)) /\
  find_block_chapter "A90" "C10"
    [(("A00", "B99"), "I"); (("C00", "D48"), "II")] = Some "I" /\
  find_block_chapter "A90" "C10"
    [(("C00", "D48"), "II"); (("A00", "B99"), "I")] = Some "II".
Proof.
  assert (Hor : forall (P : Type) (start end_ : string)
                       (l : list ((string * string) * P)),
             Forall (fun it => endpoint_in_range start end_ (fst it) = false) l <->
             Forall (fun it =>
                _belongs_to_range start (fst (fst it)) (snd (fst it)) = false /\
                _belongs_to_range end_ (fst (fst it)) (snd (fst it)) = false) l).
  { intros P start end_ l. rewrite !Forall_forall.
    split; intros H it Hit; specialize (H it Hit);
      unfold endpoint_in_range in *; now apply orb_false_iff. }
  split; [|split; [|split; [|split; reflexivity]]].
  - intros P start end_ items p. rewrite find_block_chapter_find. split.
    + destruct (find _ items) as [[[cs ce] q]|] eqn:Hf; [|discriminate].
      intros [= ->]. apply find_first_split in Hf.
      destruct Hf as (pre & post & E & Hx & Hpre).
      exists pre, cs, ce, post. split; [exact E|]. split.
      * unfold endpoint_in_range in Hx. now apply orb_true_iff in Hx.
      * now apply Hor.
    + intros (pre & cs & ce & post & E & Hx & Hpre).
      assert (find (fun it => endpoint_in_range start end_ (fst it)) items
              = Some ((cs, ce), p)) as ->; [|reflexivity].
      apply find_first_split. exists pre, post. split; [exact E|]. split.
      * unfold endpoint_in_range. now apply orb_true_iff.
      * now apply Hor.
  - intros P start end_ items. rewrite find_block_chapter_find, <- Hor.
    pose proof (find_first_none
                  (fun it => endpoint_in_range start end_ (fst it)) items) as H.
    cbv beta in H. rewrite <- H.
    destruct (find _ items); simpl; split; congruence.
  - intros chapters_raw blocks_raw categories_raw subcats_raw.
    cbn [read_datasus_official fst snd]. unfold ranges_of at 3.
    rewrite !map_map. cbn [blk_chapter_code fst snd].
    apply map_ext. intros r. rewrite find_block_chapter_find.
    rewrite <- (range_map_first_id (endpoint_in_range _ _)).
    now destruct (find _ (range_map _ _)).
Qed.

(* ================================================================== *)
(** ** Frames: order of strings, sorting, duplicates *)

Lemma cell_eqb_eq (a b : cell) : cell_eqb a b = true <-> a = b.
Proof.
  destruct a as [x|], b as [y|]; simpl; try (split; congruence).
  rewrite String.eqb_eq. split; congruence.
Qed.

Lemma cell_eqb_refl (a : cell) : cell_eqb a a = true.
Proof. now apply cell_eqb_eq. Qed.

Lemma cell_eqb_neq (a b : cell) : cell_eqb a b = false <-> a <> b.
Proof.
  rewrite <- cell_eqb_eq. destruct (cell_eqb a b); split; congruence.
Qed.

Lemma ascii_compare_trans (a b c : ascii) (o : comparison) :
  Ascii.compare a b = o -> Ascii.compare b c = o -> Ascii.compare a c = o.
Proof.
  unfold Ascii.compare. intros <-.
  destruct (N.compare_spec (N_of_ascii a) (N_of_ascii b)) as [E|L|G];
    intros H.
  - now rewrite E.
  - rewrite N.compare_lt_iff in *. now apply N.lt_trans with (N_of_ascii b).
  - rewrite N.compare_gt_iff in *. now apply N.lt_trans with (N_of_ascii b).
Qed.

Lemma string_compare_trans (a b c : string) (o : comparison) :
  (a ?= b) = o -> (b ?= c) = o -> (a ?= c) = o.
Proof.
  revert b c. induction a as [|x a IH]; intros [|y b] [|z c]; simpl;
    try congruence.
  destruct (Ascii.compare x y) eqn:Exy.
  - apply Ascii.compare_eq_iff in Exy. subst y.
    destruct (Ascii.compare x z); auto. apply IH.
  - intros <-. destruct (Ascii.compare y z) eqn:Eyz; try discriminate.
    + apply Ascii.compare_eq_iff in Eyz. subst z. now rewrite Exy.
    + now rewrite (ascii_compare_trans x y z Lt).
  - intros <-. destruct (Ascii.compare y z) eqn:Eyz; try discriminate.
    + apply Ascii.compare_eq_iff in Eyz. subst z. now rewrite Exy.
    + now rewrite (ascii_compare_trans x y z Gt).
Qed.

Lemma string_leb_trans (a b c : string) :
  String.leb a b = true -> String.leb b c = true -> String.leb a c = true.
Proof.
  unfold String.leb.
  destruct (a ?= b) eqn:Eab; try discriminate;
    destruct (b ?= c) eqn:Ebc; try discriminate; intros _ _.
  - apply String.compare_eq_iff in Eab. subst b. now rewrite Ebc.
  - apply String.compare_eq_iff in Eab. subst b. now rewrite Ebc.
  - apply String.compare_eq_iff in Ebc. subst c. now rewrite Eab.
  - now rewrite (string_compare_trans a b c Lt).
Qed.

Section SortFacts.
Context {A : Type} (key : A -> string).

Lemma insert_desc_perm (r : A) (df : list A) :
  Permutation (r :: df) (insert_desc key r df).
Proof.
  induction df as [|y df IH]; simpl; [reflexivity|].
  destruct (String.leb (key y) (key r)); [reflexivity|].
  rewrite perm_swap. now constructor.
Qed.

Lemma insert_desc_sorted (r : A) (df : list A) :
  sorted_desc key df -> sorted_desc key (insert_desc key r df).
Proof.
  induction 1 as [|y df Hy Hdf IH]; simpl.
  - repeat constructor.
  - destruct (String.leb (key y) (key r)) eqn:Hyr.
    + constructor; [|now constructor]. constructor; [exact Hyr|].
      eapply Forall_impl; [|exact Hy]. cbv beta. intros z Hz.
      now apply string_leb_trans with (key y).
    + constructor; [|exact IH].
      apply (Permutation_Forall (insert_desc_perm r df)).
      constructor; [|exact Hy].
      destruct (String.leb_total (key r) (key y)); congruence.
Qed.

(** The insertion sort is one of the sorts [sort_values] may be. *)
Lemma sort_values_desc_sorts : sorts_desc key (sort_values_desc key).
Proof.
  intros df. induction df as [|r df [IHp IHs]]; simpl.
  - split; constructor.
  - split; [|now apply insert_desc_sorted].
    rewrite <- insert_desc_perm. now constructor.
Qed.

(** It is stable: a frame already in order is left as it is. *)
Lemma sort_values_desc_fixed (df : list A) :
  sorted_desc key df -> sort_values_desc key df = df.
Proof.
  induction 1 as [|r df Hr Hdf IH]; simpl; [reflexivity|].
  rewrite IH. destruct Hr as [|y df Hy _]; simpl; [reflexivity|].
  now rewrite Hy.
Qed.

Lemma sorted_desc_later (pre post : list A) (x y : A) :
  sorted_desc key (pre ++ x :: post) -> In y post ->
  String.leb (key y) (key x) = true.
Proof.
  induction pre as [|p pre IH]; simpl; intros H Hy.
  - inversion H as [|? ? Hall _]; subst.
    rewrite Forall_forall in Hall. now apply Hall.
  - inversion H; subst. now apply IH.
Qed.

End SortFacts.

Lemma existsb_perm {A : Type} (f : A -> bool) (l l' : list A) :
  Permutation l l' -> existsb f l = existsb f l'.
Proof.
  induction 1 as [|x l l' _ IH|x y l|l l' l'' _ IH1 _ IH2]; simpl.
  - reflexivity.
  - now rewrite IH.
  - destruct (f x), (f y); reflexivity.
  - congruence.
Qed.

Lemma existsb_map_comp {A B : Type} (f : B -> bool) (g : A -> B) (l : list A) :
  existsb f (map g l) = existsb (fun x => f (g x)) l.
Proof. induction l as [|x l IH]; simpl; [reflexivity|now rewrite IH]. Qed.

Lemma existsb_pointwise {A : Type} (f g : A -> bool) (l : list A) :
  (forall x, f x = g x) -> existsb f l = existsb g l.
Proof.
  intros E. induction l as [|x l IH]; simpl; [reflexivity|].
  now rewrite E, IH.
Qed.

Lemma NoDup_map_eq {A B : Type} (f : A -> B) (l : list A) (a b : A) :
  NoDup (map f l) -> In a l -> In b l -> f a = f b -> a = b.
Proof.
  induction l as [|x l IH]; simpl; [easy|].
  intros H Ha Hb E. inversion H as [|? ? Hx Hl]; subst.
  destruct Ha as [->|Ha], Hb as [->|Hb]; auto.
  - exfalso. apply Hx. rewrite E. now apply in_map.
  - exfalso. apply Hx. rewrite <- E. now apply in_map.
Qed.

Section DropDuplicates.
Context {A : Type} (key : A -> cell).

Lemma seen_In (k : cell) (seen : list cell) :
  existsb (cell_eqb k) seen = true <-> In k seen.
Proof.
  rewrite existsb_exists. split.
  - intros (x & Hx & E). apply cell_eqb_eq in E. now subst.
  - intros H. exists k. split; [exact H|apply cell_eqb_refl].
Qed.

Lemma seen_not_In (k : cell) (seen : list cell) :
  existsb (cell_eqb k) seen = false <-> ~ In k seen.
Proof.
  rewrite <- seen_In. destruct (existsb _ seen); split; congruence.
Qed.

(** A surviving row is a row of the frame whose key was not seen before. *)
Lemma drop_duplicates_from_in (r : A) (seen : list cell) (df : list A) :
  In r (drop_duplicates_from key seen df) -> In r df /\ ~ In (key r) seen.
Proof.
  revert seen. induction df as [|x df IH]; intros seen; simpl; [easy|].
  destruct (existsb (cell_eqb (key x)) seen) eqn:Hx.
  - intros H. apply IH in H. tauto.
  - intros [->|H].
    + split; [now left|]. now apply seen_not_In.
    + apply IH in H. simpl in H. tauto.
Qed.

(** No two surviving rows carry the same key. *)
Lemma drop_duplicates_from_nodup (seen : list cell) (df : list A) :
  NoDup (map key (drop_duplicates_from key seen df)).
Proof.
  revert seen. induction df as [|x df IH]; intros seen; simpl.
  - constructor.
  - destruct (existsb (cell_eqb (key x)) seen); [apply IH|].
    simpl. constructor; [|apply IH].
    rewrite in_map_iff. intros (y & E & Hy).
    apply drop_duplicates_from_in in Hy. destruct Hy as [_ Hy].
    apply Hy. left. now symmetry.
Qed.

(** The first row carrying a key that was not seen before survives. *)
Lemma drop_duplicates_from_first (seen : list cell) (pre post : list A) (r : A) :
  ~ In (key r) seen -> Forall (fun y => key y <> key r) pre ->
  In r (drop_duplicates_from key seen (pre ++ r :: post)).
Proof.
  revert seen. induction pre as [|y pre IH]; intros seen Hseen Hpre; simpl.
  - apply seen_not_In in Hseen. rewrite Hseen. now left.
  - inversion Hpre as [|? ? Hy Hpre']; subst.
    destruct (existsb (cell_eqb (key y)) seen); [now apply IH|].
    right. apply IH; [|exact Hpre']. simpl. intros [E|E]; auto.
Qed.

(** Each key of the frame is carried by exactly one surviving row. *)
Lemma drop_duplicates_from_count (k : cell) (seen : list cell) (df : list A) :
  List.length (filter (fun r => cell_eqb (key r) k)
                      (drop_duplicates_from key seen df)) =
  if existsb (cell_eqb k) seen then 0
  else if existsb (fun r => cell_eqb (key r) k) df then 1 else 0.
Proof.
  revert seen. induction df as [|x df IH]; intros seen; simpl.
  - now destruct (existsb (cell_eqb k) seen).
  - destruct (existsb (cell_eqb (key x)) seen) eqn:Hx.
    + rewrite IH. destruct (existsb (cell_eqb k) seen) eqn:Hk; [reflexivity|].
      destruct (cell_eqb (key x) k) eqn:E; [|reflexivity].
      apply cell_eqb_eq in E. subst k. congruence.
    + simpl. destruct (cell_eqb (key x) k) eqn:E; simpl; rewrite IH; simpl.
      * apply cell_eqb_eq in E. subst k.
        now rewrite cell_eqb_refl, Hx.
      * destruct (cell_eqb k (key x)) eqn:E'; [|reflexivity].
        apply cell_eqb_eq in E'. subst k. now rewrite cell_eqb_refl in E.
Qed.

End DropDuplicates.

(* ================================================================== *)
(** ** Consolidation *)

Lemma Estruturada_after_DATASUS : String.leb Estruturada DATASUS = false.
Proof. reflexivity. Qed.

Lemma cid_codigo_renormalize (r : Row) :
  cid_codigo (renormalize r) = normalize_code (cid_codigo r).
Proof. reflexivity. Qed.

Lemma fonte_renormalize (r : Row) : fonte (renormalize r) = fonte r.
Proof. reflexivity. Qed.

(** The properties of the consolidated frame hold for every sort that
    [sort_values] may be, stable or not. *)
Section AnySort.
Variable sort : list Row -> list Row.
Hypothesis sort_ok : sorts_desc fonte sort.

Lemma consolidate_with_in (S O : list Row) (r : Row) :
  In r (consolidate_with sort S O) ->
  exists r0, In r0 (S ++ O)%list /\ r = renormalize r0.
Proof.
  unfold consolidate_with, drop_duplicates. intros H.
  apply drop_duplicates_from_in in H. destruct H as [H _].
  apply (Permutation_in _ (Permutation_sym (proj1 (sort_ok _)))) in H.
  apply in_map_iff in H. destruct H as (r0 & E & H0). now exists r0.
Qed.

Lemma consolidate_with_nodup (S O : list Row) :
  NoDup (map cid_codigo (consolidate_with sort S O)).
Proof. apply drop_duplicates_from_nodup. Qed.

Lemma consolidate_with_count (S O : list Row) (k : cell) :
  List.length (filter (fun r => cell_eqb (cid_codigo r) k)
                      (consolidate_with sort S O)) =
  if existsb (fun r => cell_eqb (normalize_code (cid_codigo r)) k) (S ++ O)
  then 1 else 0.
Proof.
  unfold consolidate_with, drop_duplicates.
  rewrite drop_duplicates_from_count. cbn [existsb].
  rewrite <- (existsb_perm _ _ _ (proj1 (sort_ok _))).
  now rewrite existsb_map_comp.
Qed.

Lemma consolidate_with_priority (S O : list Row) (s o : Row) :
  Forall (fun r => fonte r = Estruturada) S ->
  Forall (fun r => fonte r = DATASUS) O ->
  In s S -> In o O ->
  normalize_code (cid_codigo s) = normalize_code (cid_codigo o) ->
  (exists s',
      In s' S /\
      normalize_code (cid_codigo s') = normalize_code (cid_codigo s) /\
      In (renormalize s') (consolidate_with sort S O) /\
      forall r, In r (consolidate_with sort S O) ->
                cid_codigo r = normalize_code (cid_codigo s) ->
                r = renormalize s') /\
  ~ In (renormalize o) (consolidate_with sort S O).
Proof.
  intros HS HO Hs Ho Eso.
  rewrite Forall_forall in HS, HO.
  set (c := normalize_code (cid_codigo s)) in *.
  set (df := sort (map renormalize (S ++ O))).
  destruct (sort_ok (map renormalize (S ++ O))) as [Hperm Hsorted].
  fold df in Hperm, Hsorted.
  assert (Hin : In (renormalize s) df).
  { apply (Permutation_in _ Hperm), in_map, in_or_app. now left. }
  (* the first row of the sorted frame that carries the code *)
  destruct (find (fun r => cell_eqb (cid_codigo r) c) df) as [x|] eqn:Hfind.
  2:{ apply find_first_none in Hfind. rewrite Forall_forall in Hfind.
      specialize (Hfind _ Hin). cbv beta in Hfind.
      rewrite cid_codigo_renormalize in Hfind. fold c in Hfind.
      now rewrite cell_eqb_refl in Hfind. }
  apply find_first_split in Hfind.
  destruct Hfind as (pre & post & Edf & Hx & Hpre).
  apply cell_eqb_eq in Hx.
  assert (Hpre' : Forall (fun y => cid_codigo y <> cid_codigo x) pre).
  { eapply Forall_impl; [|exact Hpre]. cbv beta. intros y Hy.
    rewrite Hx. now apply cell_eqb_neq. }
  assert (Hout : In x (consolidate_with sort S O)).
  { unfold consolidate_with, drop_duplicates. fold df. rewrite Edf.
    apply drop_duplicates_from_first; [easy|exact Hpre']. }
  (* it comes from the structured frame *)
  assert (Hx0 : exists s', In s' S /\ x = renormalize s').
  { destruct (consolidate_with_in _ _ _ Hout) as (r0 & Hr0 & ->).
    apply in_app_or in Hr0. destruct Hr0 as [Hr0|Hr0]; [now exists r0|].
    exfalso. rewrite Edf in Hin, Hsorted.
    apply in_app_or in Hin. destruct Hin as [Hin|[Hin|Hin]].
    - rewrite Forall_forall in Hpre. specialize (Hpre _ Hin).
      cbv beta in Hpre. rewrite cid_codigo_renormalize in Hpre.
      fold c in Hpre. now rewrite cell_eqb_refl in Hpre.
    - apply (f_equal fonte) in Hin. rewrite !fonte_renormalize in Hin.
      rewrite (HS _ Hs), (HO _ Hr0) in Hin. discriminate.
    - pose proof (sorted_desc_later fonte _ _ _ _ Hsorted Hin) as Hle.
      rewrite !fonte_renormalize, (HS _ Hs), (HO _ Hr0) in Hle.
      discriminate. }
  destruct Hx0 as (s' & Hs' & ->).
  assert (Huniq : forall r, In r (consolidate_with sort S O) ->
                            cid_codigo r = c -> r = renormalize s').
  { intros r Hr Er.
    apply (NoDup_map_eq cid_codigo _ _ _ (consolidate_with_nodup S O) Hr Hout).
    congruence. }
  split.
  - exists s'. repeat split; auto.
  - intros Ho'. apply Huniq in Ho'.
    + apply (f_equal fonte) in Ho'. rewrite !fonte_renormalize in Ho'.
      rewrite (HS _ Hs'), (HO _ Ho) in Ho'. discriminate.
    + rewrite cid_codigo_renormalize. now symmetry.
Qed.

End AnySort.

Lemma cell_eqb_None (c : cell) : cell_eqb c None = isna c.
Proof. now destruct c. Qed.

Lemma stamped_codes {T : Type} (today : T) (df : list Row) :
  map (fun rd => cid_codigo (fst rd)) (map (fun r => (r, today)) df) =
  map cid_codigo df.
Proof. rewrite map_map. now apply map_ext. Qed.

(** C1. Whenever a code is carried both by a row tagged Estruturada (the
    structured source) and by a row tagged DATASUS (the official source),
    the consolidated frame holds exactly one row for that code, it is a
    structured row for that code (with its code normalised once more),
    and the official row is discarded, whatever the ancestry fields of the
    two rows are. *)
Theorem structured_row_wins (S O : list Row) (s o : Row) :
  Forall (fun r => fonte r = Estruturada) S ->
  Forall (fun r => fonte r = DATASUS) O ->
  In s S -> In o O ->
  normalize_code (cid_codigo s) = normalize_code (cid_codigo o) ->
  (exists s',
      In s' S /\
      normalize_code (cid_codigo s') = normalize_code (cid_codigo s) /\
      In (renormalize s') (consolidate S O) /\
      forall r, In r (consolidate S O) ->
                cid_codigo r = normalize_code (cid_codigo s) ->
                r = renormalize s') /\
  ~ In (renormalize o) (consolidate S O).
Proof.
  apply (consolidate_with_priority _ (sort_values_desc_sorts fonte)).
Qed.

(** The structured row without ancestry wins over the complete official
    row for the same code. *)
Lemma structured_row_wins_witness :
  (Forall (fun r => fonte r = Estruturada) [Samples.structured_sparse] /\
   Forall (fun r => fonte r = DATASUS) [Samples.official_full] /\
   In Samples.structured_sparse [Samples.structured_sparse] /\
   In Samples.official_full [Samples.official_full] /\
   normalize_code (cid_codigo Samples.structured_sparse) =
   normalize_code (cid_codigo Samples.official_full)) /\
  (exists s',
      In s' [Samples.structured_sparse] /\
      normalize_code (cid_codigo s') =
      normalize_code (cid_codigo Samples.structured_sparse) /\
      In (renormalize s')
         (consolidate [Samples.structured_sparse] [Samples.official_full]) /\
      forall r,
        In r (consolidate [Samples.structured_sparse] [Samples.official_full]) ->
        cid_codigo r = normalize_code (cid_codigo Samples.structured_sparse) ->
        r = renormalize s') /\
  ~ In (renormalize Samples.official_full)
       (consolidate [Samples.structured_sparse] [Samples.official_full]).
Proof.
  assert (H1 : Forall (fun r => fonte r = Estruturada) [Samples.structured_sparse])
    by (repeat constructor).
  assert (H2 : Forall (fun r => fonte r = DATASUS) [Samples.official_full])
    by (repeat constructor).
  assert (H3 : In Samples.structured_sparse [Samples.structured_sparse])
    by (simpl; auto).
  assert (H4 : In Samples.official_full [Samples.official_full])
    by (simpl; auto).
  assert (H5 : normalize_code (cid_codigo Samples.structured_sparse) =
               normalize_code (cid_codigo Samples.official_full))
    by reflexivity.
  split; [now repeat split|].
  exact (structured_row_wins _ _ _ _ H1 H2 H3 H4 H5).
Defined.

(** C3. No two rows of the consolidated frame carry the same code; this
    holds for the frame [drop_duplicates] leaves and for the frames that
    [run_etl] and [run_etl_from_datasus_dir] write. *)
Theorem consolidated_codes_unique :
  (forall S O : list Row, NoDup (map cid_codigo (consolidate S O))) /\
  (forall today datasus_raw chapters blocks categories subcats,
      NoDup (map (fun rd => cid_codigo (fst rd))
                 (run_etl today datasus_raw chapters blocks categories subcats))) /\
  (forall today chapters_raw blocks_raw categories_raw subcats_raw,
      NoDup (map (fun rd => cid_codigo (fst rd))
                 (run_etl_from_datasus_dir today chapters_raw blocks_raw
                    categories_raw subcats_raw))).
Proof.
  repeat split; intros.
  - apply drop_duplicates_from_nodup.
  - unfold run_etl. rewrite stamped_codes. apply drop_duplicates_from_nodup.
  - unfold run_etl_from_datasus_dir, read_datasus_official. cbv zeta iota beta.
    rewrite stamped_codes. apply drop_duplicates_from_nodup.
Qed.

(** C10. A missing code is deduplicated like any other: the consolidated
    frame holds at most one row with a missing code, and exactly one as
    soon as some input row has a code that normalises to a missing value. *)
Theorem null_codes_collapse (S O : list Row) :
  List.length (filter (fun r => isna (cid_codigo r)) (consolidate S O)) <= 1 /\
  List.length (filter (fun r => isna (cid_codigo r)) (consolidate S O)) =
    if existsb (fun r => isna (normalize_code (cid_codigo r))) (S ++ O)
    then 1 else 0.
Proof.
  assert (E : List.length (filter (fun r => isna (cid_codigo r)) (consolidate S O)) =
              if existsb (fun r => isna (normalize_code (cid_codigo r))) (S ++ O)
              then 1 else 0).
  { rewrite (filter_ext _ (fun r => cell_eqb (cid_codigo r) None))
      by (intros r; now rewrite cell_eqb_None).
    unfold consolidate.
    rewrite (consolidate_with_count _ (sort_values_desc_sorts fonte)).
    rewrite (existsb_pointwise _ (fun r => isna (normalize_code (cid_codigo r))));
      [reflexivity|].
    intros r. apply cell_eqb_None. }
  split; [|exact E]. rewrite E. destruct (existsb _ _); lia.
Qed.

(* ================================================================== *)
(** ** Left joins keep every row *)

Section MergeLeft.
Context {L R B : Type} (kl : L -> cell) (kr : R -> cell).

Lemma merge_left_fst (left : list L) (right : list R) (l : L) (m : option R) :
  In (l, m) (merge_left kl kr left right) -> In l left.
Proof.
  unfold merge_left. rewrite in_flat_map. intros (l0 & Hl0 & H).
  destruct (filter _ right) as [|r ms].
  - destruct H as [[= <- _]|[]]. exact Hl0.
  - apply in_map_iff in H. destruct H as (r' & [= <- _] & _). exact Hl0.
Qed.

(** The joined frame is the concatenation, in the order of the left frame,
    of one non-empty group of rows per left row: the row paired with each
    of its matches, or, without any match, the row alone. *)
Lemma merge_left_groups (f : L * option R -> B) (left : list L) (right : list R) :
  exists groups : list (list B),
    map f (merge_left kl kr left right) = concat groups /\
    Forall2
      (fun l g =>
         g <> [] /\
         Forall (fun b => exists m, b = f (l, m)) g /\
         ((forall r, In r right -> kr r <> kl l) -> g = [f (l, None)]))
      left groups.
Proof.
  induction left as [|l left (groups & E & H)].
  - exists []. split; [reflexivity|constructor].
  - unfold merge_left in *. cbn [flat_map]. rewrite map_app, E.
    eexists (_ :: groups). split; [reflexivity|].
    constructor; [|exact H].
    destruct (filter (fun r => cell_eqb (kl l) (kr r)) right) as [|r ms] eqn:Hf.
    + split; [discriminate|]. split; [|reflexivity].
      repeat constructor. now exists None.
    + split; [discriminate|]. split.
      * rewrite map_map. apply Forall_forall. intros b Hb.
        apply in_map_iff in Hb. destruct Hb as (r' & <- & _). now exists (Some r').
      * intros Hno. exfalso.
        assert (Hr : In r (filter (fun r => cell_eqb (kl l) (kr r)) right))
          by (rewrite Hf; now left).
        apply filter_In in Hr. destruct Hr as [Hr Hk].
        apply cell_eqb_eq in Hk. now apply (Hno r Hr).
Qed.

End MergeLeft.

Lemma join_chapters_blocks_code chapters blocks categories (cf : CatFull) :
  In cf (join_chapters_blocks chapters blocks categories) ->
  exists c, In c categories /\ cf_category_code cf = cat_category_code c.
Proof.
  unfold join_chapters_blocks. rewrite in_map_iff.
  intros ([[c ch] b] & <- & H). exists c. split; [|reflexivity].
  apply merge_left_fst in H. now apply merge_left_fst in H.
Qed.

Lemma build_structured_fonte chapters blocks categories subcats :
  Forall (fun r => fonte r = Estruturada)
         (build_structured chapters blocks categories subcats).
Proof.
  unfold build_structured. apply Forall_forall. intros r Hr.
  apply in_map_iff in Hr. now destruct Hr as (sc & <- & _).
Qed.

Lemma prepare_datasus_fonte raw cats :
  Forall (fun r => fonte r = DATASUS) (prepare_datasus raw cats).
Proof.
  unfold prepare_datasus. apply Forall_forall. intros r Hr.
  apply in_map_iff in Hr. now destruct Hr as (rc & <- & _).
Qed.

Lemma consolidate_fonte (S O : list Row) :
  Forall (fun r => fonte r = Estruturada) S ->
  Forall (fun r => fonte r = DATASUS) O ->
  Forall (fun r => fonte r = Estruturada \/ fonte r = DATASUS) (consolidate S O).
Proof.
  intros HS HO. rewrite Forall_forall in *. intros r Hr.
  destruct (consolidate_with_in _ (sort_values_desc_sorts fonte) _ _ _ Hr)
    as (r0 & H0 & ->).
  rewrite fonte_renormalize. apply in_app_or in H0.
  destruct H0 as [H0|H0]; [left; now apply HS|right; now apply HO].
Qed.

(** C8. Attaching the ancestry drops no row.  The frame of
    [build_structured] is made, in the order of the subcategories, of one
    non-empty group of rows per subcategory, each row carrying that
    subcategory's code, category and title; a subcategory whose
    [category_code] matches no category gives exactly one row, with its
    four ancestry fields missing.  The same holds for [prepare_datasus] and
    the rows (code, description) of the official list, matched on the root
    category of the code. *)
Theorem ancestry_attachment_keeps_every_row :
  (forall chapters blocks categories subcats,
      exists groups : list (list Row),
        build_structured chapters blocks categories subcats = concat groups /\
        Forall2
          (fun sc g =>
             g <> [] /\
             Forall (fun r =>
                       cid_codigo r = normalize_code (sub_subcategory_code sc) /\
                       cid_categoria r = normalize_code (sub_category_code sc) /\
                       titulo r = sub_subcategory_title sc) g /\
             ((forall c, In c categories ->
                         cat_category_code c <> sub_category_code sc) ->
              exists r, g = [r] /\ null_ancestry r))
          subcats groups) /\
  (forall raw cats,
      exists groups : list (list Row),
        prepare_datasus raw cats = concat groups /\
        Forall2
          (fun rw g =>
             g <> [] /\
             Forall (fun r =>
                       cid_codigo r = normalize_code (raw_codigo rw) /\
                       cid_categoria r =
                         extract_root_category (normalize_code (raw_codigo rw)) /\
                       descricao r = raw_descricao rw) g /\
             ((forall c, In c cats ->
                         normalize_code (cf_category_code c) <>
                         extract_root_category (normalize_code (raw_codigo rw))) ->
              exists r, g = [r] /\ null_ancestry r))
          raw groups).
Proof.
  split.
  - intros chapters blocks categories subcats. unfold build_structured.
    match goal with
    | |- context [map ?f (merge_left ?kl ?kr ?left ?right)] =>
        destruct (merge_left_groups kl kr f left right) as (groups & E & H)
    end.
    exists groups. split; [exact E|].
    eapply Forall2_impl; [|exact H]. cbv beta.
    intros sc g (Hne & Hall & Hnone). split; [exact Hne|]. split.
    + eapply Forall_impl; [|exact Hall]. cbv beta.
      intros r (m & ->). now repeat split.
    + intros Hno. eexists. split.
      * apply Hnone. intros cf Hcf.
        apply join_chapters_blocks_code in Hcf.
        destruct Hcf as (c & Hc & ->). now apply Hno.
      * now repeat split.
  - intros raw cats. unfold prepare_datasus.
    match goal with
    | |- context [map ?f (merge_left ?kl ?kr ?left ?right)] =>
        destruct (merge_left_groups kl kr f left right) as (groups & E & H)
    end.
    exists groups. split; [exact E|].
    eapply Forall2_impl; [|exact H]. cbv beta.
    intros rw g (Hne & Hall & Hnone). split; [exact Hne|]. split.
    + eapply Forall_impl; [|exact Hall]. cbv beta.
      intros r (m & ->). now repeat split.
    + intros Hno. eexists. split.
      * apply Hnone. intros cf Hcf. apply in_map_iff in Hcf.
        destruct Hcf as (c & <- & Hc). now apply Hno.
      * now repeat split.
Qed.

(* ================================================================== *)
(** ** Source tags *)

(** C9, with the literals "Structured" and "Official" of the
    specification, fails: the rows carry the literals "Estruturada" and
    "DATASUS". *)
Lemma source_tags_differ_from_spec_literals :
  ~ Forall (fun r => fonte r = "Structured")
      (build_structured [] [] []
         [mkSubcategory (Some "A00.0") (Some "Cholera") (Some "A00")]) /\
  ~ Forall (fun r => fonte r = "Official")
      (prepare_datasus [mkRawDatasus (Some "A00.0") (Some "Cholera")] []).
Proof.
  split; intros H; inversion H as [|? ? E _]; discriminate E.
Qed.

(** C9 (amended). Every row of [build_structured] carries the tag
    "Estruturada", every row of [prepare_datasus] carries the tag
    "DATASUS", and the [fonte] column of the frames that [run_etl] and
    [run_etl_from_datasus_dir] write holds these two values only. *)
Theorem source_tags :
  (forall chapters blocks categories subcats,
      Forall (fun r => fonte r = "Estruturada")
             (build_structured chapters blocks categories subcats)) /\
  (forall raw cats,
      Forall (fun r => fonte r = "DATASUS") (prepare_datasus raw cats)) /\
  (forall today datasus_raw chapters blocks categories subcats,
      Forall (fun rd => fonte (fst rd) = "Estruturada" \/ fonte (fst rd) = "DATASUS")
             (run_etl today datasus_raw chapters blocks categories subcats)) /\
  (forall today chapters_raw blocks_raw categories_raw subcats_raw,
      Forall (fun rd => fonte (fst rd) = "Estruturada" \/ fonte (fst rd) = "DATASUS")
             (run_etl_from_datasus_dir today chapters_raw blocks_raw
                categories_raw subcats_raw)).
Proof.
  split; [exact build_structured_fonte|].
  split; [exact prepare_datasus_fonte|].
  split; intros.
  - unfold run_etl. apply Forall_map. cbn [fst].
    apply consolidate_fonte;
      [apply build_structured_fonte|apply prepare_datasus_fonte].
  - unfold run_etl_from_datasus_dir, read_datasus_official. cbv zeta iota beta.
    apply Forall_map. cbn [fst].
    apply consolidate_fonte;
      [apply build_structured_fonte|apply prepare_datasus_fonte].
Qed.

(* ================================================================== *)
(** ** The consolidated frame, spelled out *)

Lemma tagged_frames_sorted (S O : list Row) :
  Forall (fun r => fonte r = Estruturada) S ->
  Forall (fun r => fonte r = DATASUS) O ->
  sorted_desc fonte (S ++ O).
Proof.
  intros HS HO. induction HS as [|s S Hs HS IH]; simpl.
  - induction HO as [|o O Ho HO IH]; constructor; [|exact IH].
    eapply Forall_impl; [|exact HO]. cbv beta. intros y ->. now rewrite Ho.
  - constructor; [|exact IH]. apply Forall_app. split.
    + eapply Forall_impl; [|exact HS]. cbv beta. intros y ->. now rewrite Hs.
    + eapply Forall_impl; [|exact HO]. cbv beta. intros y ->. now rewrite Hs.
Qed.

(** With the stable sort, the structured rows stay in front in their own
    order, followed by the official rows in theirs: the consolidated frame
    is the concatenation with its duplicates dropped. *)
Lemma consolidate_tagged (S O : list Row) :
  Forall (fun r => fonte r = Estruturada) S ->
  Forall (fun r => fonte r = DATASUS) O ->
  consolidate S O =
  drop_duplicates cid_codigo (map renormalize S ++ map renormalize O).
Proof.
  intros HS HO. unfold consolidate, consolidate_with.
  rewrite map_app, sort_values_desc_fixed; [reflexivity|].
  apply tagged_frames_sorted; apply Forall_map.
  - eapply Forall_impl; [|exact HS]. now intros r.
  - eapply Forall_impl; [|exact HO]. now intros r.
Qed.

(** The end-to-end scenario: one chapter A00-B99, one block A00-A09, the
    category A00 and the subcategory A000 give the row A00.0 with its
    whole ancestry, tagged as structured. *)
Example end_to_end_scenario :
  run_etl_from_datasus_dir "2024-01-01"
    [mkRawRange (Some "A00") (Some "B99") (Some "Infectious diseases")]
    [mkRawRange (Some "A00") (Some "A09") (Some "Intestinal infections")]
    [mkRawCategory (Some "A00") (Some "Cholera")]
    [mkRawSubcategory (Some "A000") (Some "Cholera due to Vibrio cholerae 01")]
  = [({| cid_codigo := Some "A00.0";
         cid_categoria := Some "A00";
         cid_subcategoria := Some "A00.0";
         titulo := Some "Cholera due to Vibrio cholerae 01";
         descricao := Some "Cholera due to Vibrio cholerae 01";
         capitulo_codigo := Some "A00-B99";
         capitulo_titulo := Some "Infectious diseases";
         bloco_codigo := Some "A00-A09";
         bloco_titulo := Some "Intestinal infections";
         fonte := "Estruturada" |}, "2024-01-01")].
Proof. reflexivity. Qed.

(** The sparse structured row survives, the complete official row for the
    same code does not. *)
Example consolidate_samples :
  consolidate [Samples.structured_sparse] [Samples.official_full] =
  [Samples.structured_sparse].
Proof. reflexivity. Qed.

(** A subcategory without a category keeps its row, with no ancestry; an
    official code without a category does too. *)
Example unmatched_rows_are_kept :
  build_structured [] [] []
    [mkSubcategory (Some "Z99.9") (Some "Unplaced") (Some "Z99")] =
  [{| cid_codigo := Some "Z99.9";
      cid_categoria := Some "Z99";
      cid_subcategoria := Some "Z99.9";
      titulo := Some "Unplaced";
      descricao := Some "Unplaced";
      capitulo_codigo := None;
      capitulo_titulo := None;
      bloco_codigo := None;
      bloco_titulo := None;
      fonte := "Estruturada" |}] /\
  map (fun r => (cid_codigo r, bloco_codigo r, capitulo_codigo r))
      (prepare_datasus
         [mkRawDatasus (Some "z99.9") (Some "Unplaced");
          mkRawDatasus (Some "A00.1") (Some "Cholera")]
         [mkCatFull (Some "a00") (Some "Cholera") (Some "A00-A09")
                    (Some "Intestinal infections") (Some "A00-B99")
                    (Some "Infectious diseases")]) =
  [(Some "Z99.9", None, None);
   (Some "A00.1", Some "A00-A09", Some "A00-B99")].
Proof. split; reflexivity. Qed.

(** Three rows without a code, from both sources, leave one. *)
Example null_codes_sample :
  map (fun r => (cid_codigo r, fonte r))
      (consolidate
         [mkRow None None None None None None None None None Estruturada;
          mkRow None None None (Some "t") None None None None None Estruturada]
         [mkRow None None None None None None None None None DATASUS;
          mkRow (Some "b01") None None None None None None None None DATASUS]) =
  [(None, "Estruturada"); (Some "B01", "DATASUS")].
Proof. reflexivity. Qed.

(* ================================================================== *)
(** ** Root category and subcategory of a code *)

Lemma normalized_fixed (s : string) :
  upper (strip (upper (strip s))) = upper (strip s).
Proof. now rewrite strip_upper, strip_idem, upper_idem. Qed.

Lemma normalize_code_fixed (c : cell) :
  normalize_code (normalize_code c) = normalize_code c.
Proof.
  destruct c as [s|]; [|reflexivity].
  unfold normalize_code. cbn [isna]. now rewrite normalized_fixed.
Qed.

(** [split(".")[0]] cuts the string at its first dot. *)
Lemma split_head_dot (s : string) :
  exists rest,
    s = split_head "." s ++ rest /\
    contains_char "." (split_head "." s) = false /\
    (rest = "" \/ exists ext, rest = String "." ext) /\
    (contains_char "." s = false <-> rest = "").
Proof.
  induction s as [|d s (rest & E & Hno & Hrest & Hiff)].
  - exists "". repeat split; auto.
  - cbn [split_head contains_char]. destruct (Ascii.eqb_spec "."%char d) as [<-|Hd].
    + exists (String "." s). repeat split; auto; try discriminate.
      right. now exists s.
    + exists rest. cbn [append contains_char orb].
      destruct (Ascii.eqb_spec "."%char d) as [?|_]; [contradiction|].
      cbn [orb]. repeat split; auto; [now rewrite <- E|apply Hiff|apply Hiff].
Qed.


Lemma append_empty_r (s : string) : s ++ "" = s.
Proof. induction s as [|c s IH]; simpl; [reflexivity|now rewrite IH]. Qed.

Lemma append_same_l (s r : string) : s = s ++ r -> r = "".
Proof.
  induction s as [|c s IH]; simpl; [now intros <-|].
  intros [= E]. now apply IH.
Qed.

Lemma subcategory_of_cases (c : cell) :
  subcategory_of c =
  match c with
  | Some s => if contains_char "." s then Some s else None
  | None => None
  end.
Proof.
  destruct c as [[|d s]|]; cbn; [reflexivity| |reflexivity].
  reflexivity.
Qed.

(** The subcategory field is left missing exactly for a code that is its
    own root category. *)
Lemma subcategory_none_iff_root (c : cell) :
  subcategory_of (normalize_code c) = None <->
  extract_root_category (normalize_code c) = normalize_code c.
Proof.
  rewrite subcategory_of_cases. destruct c as [s|]; [|now split].
  unfold extract_root_category, normalize_code. cbn [isna].
  rewrite normalized_fixed.
  destruct (split_head_dot (upper (strip s))) as (rest & E & _ & _ & Hiff).
  destruct (contains_char "." (upper (strip s))) eqn:Hdot.
  - split; [discriminate|].
    intros [= H]. rewrite H in E. apply append_same_l in E.
    apply Hiff in E. discriminate.
  - split; [|reflexivity]. intros _.
    assert (rest = "") as -> by now apply Hiff.
    rewrite append_empty_r in E. now rewrite <- E.
Qed.

Lemma subcategory_none_or_code (c : cell) :
  subcategory_of (normalize_code c) = None \/
  subcategory_of (normalize_code c) = normalize_code c.
Proof.
  rewrite subcategory_of_cases. destruct (normalize_code c) as [s|]; [|now left].
  destruct (contains_char "." s); [now right|now left].
Qed.

(** X2. A normalised code is a category-level entry (its subcategory field
    is left missing) exactly when it is its own root category; otherwise
    the subcategory field is the code itself. *)
Theorem category_level_iff_own_root (c : cell) :
  (subcategory_of (normalize_code c) = None <->
   extract_root_category (normalize_code c) = normalize_code c) /\
  (subcategory_of (normalize_code c) = None \/
   subcategory_of (normalize_code c) = normalize_code c).
Proof.
  split.
  - apply subcategory_none_iff_root.
  - apply subcategory_none_or_code.
Qed.

(* ================================================================== *)
(** ** Rows of the two producers *)

Lemma renormalize_fixed (r : Row) :
  normalize_code (cid_codigo r) = cid_codigo r -> renormalize r = r.
Proof. destruct r. unfold renormalize. cbn. now intros ->. Qed.

Lemma build_structured_invariant chapters blocks categories subcats :
  Forall row_invariant (build_structured chapters blocks categories subcats).
Proof.
  unfold build_structured. apply Forall_forall. intros r Hr.
  apply in_map_iff in Hr. destruct Hr as (sc & <- & _).
  unfold row_invariant. cbn.
  pose proof (subcategory_none_iff_root (sub_subcategory_code (fst sc))) as Hiff.
  pose proof (subcategory_none_or_code (sub_subcategory_code (fst sc))) as Hor.
  repeat split; auto using normalize_code_fixed; apply Hiff.
Qed.

Lemma prepare_datasus_invariant raw cats :
  Forall row_invariant (prepare_datasus raw cats).
Proof.
  unfold prepare_datasus. apply Forall_forall. intros r Hr.
  apply in_map_iff in Hr. destruct Hr as (rc & <- & _).
  unfold row_invariant. cbn.
  pose proof (subcategory_none_iff_root (raw_codigo (fst rc))) as Hiff.
  pose proof (subcategory_none_or_code (raw_codigo (fst rc))) as Hor.
  repeat split; auto using normalize_code_fixed; apply Hiff.
Qed.

Lemma map_fixed {A : Type} (f : A -> A) (l : list A) :
  Forall (fun x => f x = x) l -> map f l = l.
Proof. induction 1 as [|x l Hx _ IH]; simpl; [reflexivity|now rewrite Hx, IH]. Qed.

(** X3. The second normalisation of the code column (lines 180 and 358)
    changes nothing in the frames of [build_structured] and
    [prepare_datasus]: their codes are already in normal form. *)
Theorem second_normalisation_is_identity :
  (forall chapters blocks categories subcats,
      map renormalize (build_structured chapters blocks categories subcats) =
      build_structured chapters blocks categories subcats) /\
  (forall raw cats,
      map renormalize (prepare_datasus raw cats) = prepare_datasus raw cats).
Proof.
  split; intros; apply map_fixed.
  - eapply Forall_impl; [|apply build_structured_invariant].
    intros r (H & _). now apply renormalize_fixed.
  - eapply Forall_impl; [|apply prepare_datasus_invariant].
    intros r (H & _). now apply renormalize_fixed.
Qed.

Lemma consolidate_invariant (S O : list Row) :
  Forall row_invariant S -> Forall row_invariant O ->
  Forall row_invariant (consolidate S O).
Proof.
  intros HS HO. rewrite Forall_forall in *. intros r Hr.
  destruct (consolidate_with_in _ (sort_values_desc_sorts fonte) _ _ _ Hr)
    as (r0 & H0 & ->).
  assert (Hinv : row_invariant r0).
  { apply in_app_or in H0. destruct H0; auto. }
  rewrite renormalize_fixed; [exact Hinv|apply Hinv].
Qed.

(** X4. Every row that [run_etl] and [run_etl_from_datasus_dir] write has
    its code in normal form, its description equal to its title, and a
    subcategory field that is either missing or the code itself, missing
    exactly when the code is its own root category. *)
Theorem written_rows_invariant :
  (forall today datasus_raw chapters blocks categories subcats,
      Forall (fun rd => row_invariant (fst rd))
             (run_etl today datasus_raw chapters blocks categories subcats)) /\
  (forall today chapters_raw blocks_raw categories_raw subcats_raw,
      Forall (fun rd => row_invariant (fst rd))
             (run_etl_from_datasus_dir today chapters_raw blocks_raw
                categories_raw subcats_raw)).
Proof.
  split; intros.
  - unfold run_etl. apply Forall_map. cbn [fst].
    apply consolidate_invariant;
      [apply build_structured_invariant|apply prepare_datasus_invariant].
  - unfold run_etl_from_datasus_dir, read_datasus_official. cbv zeta iota beta.
    apply Forall_map. cbn [fst].
    apply consolidate_invariant;
      [apply build_structured_invariant|apply prepare_datasus_invariant].
Qed.

(* ================================================================== *)
(** ** What consolidation keeps *)

Lemma consolidate_code_kept (S O : list Row) (r0 : Row) :
  In r0 (S ++ O)%list ->
  exists r, In r (consolidate S O) /\
            cid_codigo r = normalize_code (cid_codigo r0).
Proof.
  intros H0.
  pose proof (consolidate_with_count _ (sort_values_desc_sorts fonte) S O
                (normalize_code (cid_codigo r0))) as Hc.
  fold (consolidate S O) in Hc.
  assert (Hex : existsb
                  (fun r => cell_eqb (normalize_code (cid_codigo r))
                                     (normalize_code (cid_codigo r0)))
                  (S ++ O) = true).
  { apply existsb_exists. exists r0. split; [exact H0|apply cell_eqb_refl]. }
  rewrite Hex in Hc.
  destruct (filter _ (consolidate S O)) as [|r l] eqn:Hf; [discriminate|].
  assert (Hr : In r (r :: l)) by now left.
  rewrite <- Hf in Hr. apply filter_In in Hr. destruct Hr as [Hr Hk].
  apply cell_eqb_eq in Hk. now exists r.
Qed.

(** X5. Consolidation loses no code and invents none: the codes of the
    consolidated frame are exactly the normalised codes of the rows of the
    two input frames. *)
Theorem consolidated_codes_are_input_codes (S O : list Row) (k : cell) :
  (exists r, In r (consolidate S O) /\ cid_codigo r = k) <->
  (exists r0, In r0 (S ++ O)%list /\ normalize_code (cid_codigo r0) = k).
Proof.
  split.
  - intros (r & Hr & <-).
    destruct (consolidate_with_in _ (sort_values_desc_sorts fonte) _ _ _ Hr)
      as (r0 & H0 & ->).
    now exists r0.
  - intros (r0 & H0 & <-). now apply consolidate_code_kept.
Qed.

Lemma consolidate_source (S O : list Row) (r0 : Row) :
  Forall (fun r => fonte r = Estruturada) S ->
  Forall (fun r => fonte r = DATASUS) O ->
  In r0 (S ++ O)%list ->
  exists r1,
    In r1 (S ++ O)%list /\
    normalize_code (cid_codigo r1) = normalize_code (cid_codigo r0) /\
    In (renormalize r1) (consolidate S O) /\
    ((exists s, In s S /\
                normalize_code (cid_codigo s) = normalize_code (cid_codigo r0)) ->
     In r1 S).
Proof.
  intros HS HO H0.
  destruct (consolidate_code_kept S O r0 H0) as (r & Hr & Hk).
  destruct (consolidate_with_in _ (sort_values_desc_sorts fonte) _ _ _ Hr)
    as (r1 & H1 & ->).
  exists r1. repeat split; auto.
  intros (s & Hs & Es). apply in_app_or in H1. destruct H1 as [H1|H1]; auto.
  exfalso.
  assert (E : normalize_code (cid_codigo s) = normalize_code (cid_codigo r1))
    by (rewrite Es; symmetry; exact Hk).
  now destruct (consolidate_with_priority _ (sort_values_desc_sorts fonte)
                  S O s r1 HS HO Hs H1 E) as [_ Hno].
Qed.

(** X6. An official row whose code no structured row carries is not lost:
    an official row with that code is in the consolidated frame. *)
Theorem official_code_kept_when_new (S O : list Row) (o : Row) :
  Forall (fun r => fonte r = Estruturada) S ->
  Forall (fun r => fonte r = DATASUS) O ->
  In o O ->
  (forall s, In s S ->
             normalize_code (cid_codigo s) <> normalize_code (cid_codigo o)) ->
  exists o',
    In o' O /\
    normalize_code (cid_codigo o') = normalize_code (cid_codigo o) /\
    In (renormalize o') (consolidate S O).
Proof.
  intros HS HO Ho Hnew.
  destruct (consolidate_source S O o HS HO) as (r1 & H1 & E & Hin & _).
  { apply in_or_app. now right. }
  exists r1. repeat split; auto.
  apply in_app_or in H1. destruct H1 as [H1|H1]; auto.
  now destruct (Hnew r1 H1).
Qed.

Lemma official_code_kept_when_new_witness :
  exists o',
    In o' [Samples.official_full; Samples.official_new] /\
    normalize_code (cid_codigo o') =
    normalize_code (cid_codigo Samples.official_new) /\
    In (renormalize o')
       (consolidate [Samples.structured_sparse]
          [Samples.official_full; Samples.official_new]).
Proof.
  apply (official_code_kept_when_new [Samples.structured_sparse]
           [Samples.official_full; Samples.official_new]
           Samples.official_new).
  - repeat constructor.
  - repeat constructor.
  - simpl; auto.
  - intros s [<-|[]]. discriminate.
Defined.

(** X7. When no two structured rows carry the same normalised code, every
    structured row is in the consolidated frame. *)
Theorem structured_rows_all_kept (S O : list Row) (s : Row) :
  Forall (fun r => fonte r = Estruturada) S ->
  Forall (fun r => fonte r = DATASUS) O ->
  NoDup (map (fun r => normalize_code (cid_codigo r)) S) ->
  In s S ->
  In (renormalize s) (consolidate S O).
Proof.
  intros HS HO Hnd Hs.
  destruct (consolidate_source S O s HS HO) as (r1 & H1 & E & Hin & HinS).
  { apply in_or_app. now left. }
  assert (H1S : In r1 S) by (apply HinS; now exists s).
  now rewrite <- (NoDup_map_eq _ _ _ _ Hnd H1S Hs E).
Qed.

Lemma structured_rows_all_kept_witness :
  In (renormalize Samples.structured_sparse)
     (consolidate [Samples.structured_sparse] [Samples.official_full]).
Proof.
  apply structured_rows_all_kept.
  - repeat constructor.
  - repeat constructor.
  - simpl. constructor; [intros []|constructor].
  - simpl; auto.
Defined.

(** X8. In the mode that reads only the official directory, the official
    list is made from the structured frame itself, so every code of it is a
    structured code: each row that [run_etl_from_datasus_dir] writes is
    tagged "Estruturada". *)
Theorem datasus_dir_rows_are_structured
    today chapters_raw blocks_raw categories_raw subcats_raw :
  Forall (fun rd => fonte (fst rd) = "Estruturada")
         (run_etl_from_datasus_dir today chapters_raw blocks_raw
            categories_raw subcats_raw).
Proof.
  unfold run_etl_from_datasus_dir, read_datasus_official. cbv zeta iota beta.
  apply Forall_map. cbn [fst].
  match goal with
  | |- Forall _ (consolidate ?S0 ?O0) => set (S := S0); set (O := O0)
  end.
  assert (HS : Forall (fun r => fonte r = Estruturada) S)
    by apply build_structured_fonte.
  assert (HO : Forall (fun r => fonte r = DATASUS) O)
    by apply prepare_datasus_fonte.
  assert (Hcov : forall o, In o O ->
            exists s, In s S /\
              normalize_code (cid_codigo s) = normalize_code (cid_codigo o)).
  { intros o Ho. unfold O, prepare_datasus in Ho.
    apply in_map_iff in Ho. destruct Ho as ([rw m] & <- & Hrw).
    apply merge_left_fst in Hrw. apply in_map_iff in Hrw.
    destruct Hrw as (s & <- & Hs). exists s. split; [exact Hs|].
    cbn. now rewrite normalize_code_fixed. }
  apply Forall_forall. intros r Hr.
  destruct (consolidate_with_in _ (sort_values_desc_sorts fonte) _ _ _ Hr)
    as (r0 & H0 & ->).
  rewrite fonte_renormalize. rewrite Forall_forall in HS.
  apply in_app_or in H0. destruct H0 as [H0|H0]; [now apply HS|].
  exfalso. destruct (Hcov r0 H0) as (s & Hs & E).
  rewrite <- Forall_forall in HS.
  now destruct (consolidate_with_priority _ (sort_values_desc_sorts fonte)
                  S O s r0 HS HO Hs H0 E) as [_ Hno].
Qed.

(** X9. The count of rows without block or chapter never exceeds the
    number of rows, and a row that lacks both fields is counted once: the
    count is the rows without block plus the rows without chapter minus the
    rows without either. *)
Theorem missing_hier_counts_rows_once (df : list Row) :
  missing_hier df <= List.length df /\
  missing_hier df
  + List.length (filter (fun r => isna (bloco_codigo r) && isna (capitulo_codigo r)) df)
  = List.length (filter (fun r => isna (bloco_codigo r)) df)
    + List.length (filter (fun r => isna (capitulo_codigo r)) df).
Proof.
  unfold missing_hier. split; [apply filter_length_le|].
  induction df as [|r df IH]; [reflexivity|]. cbn [filter].
  destruct (isna (bloco_codigo r)), (isna (capitulo_codigo r));
    cbn [orb andb List.length]; lia.
Qed.

(* ================================================================== *)
(** ** Where the ancestry of a row comes from *)

Section MergeLeftIn.
Context {L R : Type} (kl : L -> cell) (kr : R -> cell).

(** A row of the joined frame pairs a left row with a right row of the
    same key, or with nothing when no right row has that key. *)
Lemma merge_left_in (left : list L) (right : list R) (l : L) (m : option R) :
  In (l, m) (merge_left kl kr left right) ->
  In l left /\
  match m with
  | Some r => In r right /\ kr r = kl l
  | None => forall r, In r right -> kr r <> kl l
  end.
Proof.
  unfold merge_left. rewrite in_flat_map. intros (l0 & Hl0 & H).
  destruct (filter (fun r => cell_eqb (kl l0) (kr r)) right) as [|r ms] eqn:Hf.
  - destruct H as [[= <- <-]|[]]. split; [exact Hl0|].
    intros r Hr E.
    assert (Hin : In r (filter (fun r => cell_eqb (kl l0) (kr r)) right)).
    { apply filter_In. split; [exact Hr|]. now apply cell_eqb_eq. }
    now rewrite Hf in Hin.
  - apply in_map_iff in H. destruct H as (r' & [= <- <-] & Hr').
    split; [exact Hl0|]. rewrite <- Hf in Hr'. apply filter_In in Hr'.
    destruct Hr' as [Hr' E]. apply cell_eqb_eq in E. now split.
Qed.

Lemma filter_unique_key (right : list R) (k : cell) :
  NoDup (map kr right) ->
  List.length (filter (fun r => cell_eqb k (kr r)) right) <= 1.
Proof.
  induction right as [|x right IH]; simpl; [lia|].
  intros H. inversion H as [|? ? Hx Hnd]; subst.
  destruct (cell_eqb k (kr x)) eqn:E; [|now apply IH].
  apply cell_eqb_eq in E. subst k.
  assert (filter (fun r => cell_eqb (kr x) (kr r)) right = []) as ->; [|simpl; lia].
  destruct (filter _ right) as [|y l] eqn:Hf; [reflexivity|].
  assert (Hy : In y (y :: l)) by now left.
  rewrite <- Hf in Hy. apply filter_In in Hy. destruct Hy as [Hy E].
  apply cell_eqb_eq in E. exfalso. apply Hx. rewrite E. now apply in_map.
Qed.

(** With unique keys on the right, the join neither repeats nor reorders
    the rows of the left frame. *)
Lemma merge_left_unique (left : list L) (right : list R) :
  NoDup (map kr right) ->
  map fst (merge_left kl kr left right) = left.
Proof.
  intros Hnd. unfold merge_left.
  induction left as [|l left IH]; [reflexivity|].
  cbn [flat_map]. rewrite map_app, IH.
  pose proof (filter_unique_key right (kl l) Hnd) as Hlen.
  destruct (filter (fun r => cell_eqb (kl l) (kr r)) right) as [|r [|r' ms]];
    [reflexivity|reflexivity|simpl in Hlen; lia].
Qed.

(** Every row of the left frame is in the joined frame. *)
Lemma merge_left_covers (left : list L) (right : list R) (l : L) :
  In l left -> exists m, In (l, m) (merge_left kl kr left right).
Proof.
  unfold merge_left. intros Hl.
  destruct (filter (fun r => cell_eqb (kl l) (kr r)) right) as [|r ms] eqn:Hf.
  - exists None. apply in_flat_map. exists l. split; [exact Hl|].
    rewrite Hf. now left.
  - exists (Some r). apply in_flat_map. exists l. split; [exact Hl|].
    rewrite Hf. now left.
Qed.

End MergeLeftIn.

Lemma join_chapters_blocks_covers chapters blocks categories (c : Category) :
  In c categories ->
  exists cf, In cf (join_chapters_blocks chapters blocks categories) /\
             cf_category_code cf = cat_category_code c.
Proof.
  intros Hc. unfold join_chapters_blocks.
  destruct (merge_left_covers cat_chapter_code ch_chapter_code
              categories chapters c Hc) as (ch & H1).
  destruct (merge_left_covers (fun cc : Category * option Chapter =>
                                 cat_block_id (fst cc)) blk_block_id
              _ blocks (c, ch) H1) as (b & H2).
  eexists. split; [apply in_map_iff; eexists; split; [reflexivity|exact H2]|].
  reflexivity.
Qed.

Lemma join_chapters_blocks_from chapters blocks categories (cf : CatFull) :
  In cf (join_chapters_blocks chapters blocks categories) ->
  exists c, In c categories /\ joined_from chapters blocks c cf.
Proof.
  unfold join_chapters_blocks. rewrite in_map_iff.
  intros ([[c ch] b] & <- & H).
  apply merge_left_in in H. destruct H as [H Hb]. cbn [fst] in Hb.
  apply merge_left_in in H. destruct H as [Hc Hch].
  exists c. split; [exact Hc|]. unfold joined_from. cbn.
  repeat split.
  - destruct (cat_chapter_code c) as [x|] eqn:Ec; [now left|].
    destruct b as [b|]; [|now left]. right. split; [reflexivity|].
    exists b. now destruct Hb.
  - destruct b as [b|]; [|now left]. right. exists b. now destruct Hb.
  - destruct ch as [ch|]; [|now left]. right. exists ch. now destruct Hch.
Qed.

(** X10. The ancestry of a row of [build_structured] is never made up: the
    row comes from a subcategory, and either no category carries that
    subcategory's [category_code] (compared as it is written, without
    normalisation) and the four ancestry fields are missing, or the fields
    are those of such a category: its block, its own chapter code or, when
    that is missing, the chapter code of its block, and titles found under
    the category's own block and chapter keys. *)
Theorem structured_ancestry_source chapters blocks categories subcats :
  Forall
    (fun r =>
       exists sc,
         In sc subcats /\
         cid_codigo r = normalize_code (sub_subcategory_code sc) /\
         ((null_ancestry r /\
           forall c, In c categories ->
                     cat_category_code c <> sub_category_code sc) \/
          exists c cf,
            In c categories /\
            cat_category_code c = sub_category_code sc /\
            joined_from chapters blocks c cf /\
            ancestry_from cf r))
    (build_structured chapters blocks categories subcats).
Proof.
  apply Forall_forall. intros r Hr. unfold build_structured in Hr.
  apply in_map_iff in Hr. destruct Hr as ([sc m] & <- & H).
  apply merge_left_in in H. destruct H as [Hsc Hm].
  exists sc. split; [exact Hsc|]. split; [reflexivity|].
  destruct m as [cf|].
  - right. destruct Hm as [Hcf Hk].
    destruct (join_chapters_blocks_from _ _ _ _ Hcf) as (c & Hc & Hj).
    exists c, cf. split; [exact Hc|]. split.
    + destruct Hj as (E & _). now rewrite <- E.
    + split; [exact Hj|]. now repeat split.
  - left. split; [now repeat split|].
    intros c Hc E.
    destruct (join_chapters_blocks_covers chapters blocks categories c Hc)
      as (cf & Hcf & Ecf).
    apply (Hm cf Hcf). congruence.
Qed.

(** Matched or not, a row of [prepare_datasus] and the joined categories *)
Lemma prepare_datasus_row_ancestry raw cats (r : Row) :
  In r (prepare_datasus raw cats) ->
  (null_ancestry r /\
   forall c, In c cats ->
             normalize_code (cf_category_code c) <> cid_categoria r) \/
  exists c,
    In c cats /\
    normalize_code (cf_category_code c) = cid_categoria r /\
    ancestry_from c r.
Proof.
  intros Hr. unfold prepare_datasus in Hr.
  apply in_map_iff in Hr. destruct Hr as ([rw m] & <- & H).
  apply merge_left_in in H. destruct H as [_ Hm]. cbn [fst snd].
  destruct m as [cf|].
  - right. destruct Hm as [Hcf Hk]. apply in_map_iff in Hcf.
    destruct Hcf as (c & <- & Hc). exists c.
    split; [exact Hc|]. split; [exact Hk|]. now repeat split.
  - left. split; [now repeat split|]. intros c Hc. cbn.
    apply (Hm _ (in_map _ _ _ Hc)).
Qed.

(** X11. The ancestry of a row of [prepare_datasus] is never made up
    either: the four fields are missing and no category has the row's root
    category as its normalised code, or they are the fields of a category
    whose code, once trimmed and upper-cased, is the row's root category. *)
Theorem official_ancestry_source raw cats :
  Forall
    (fun r =>
       (null_ancestry r /\
        forall c, In c cats ->
                  normalize_code (cf_category_code c) <> cid_categoria r) \/
       exists c,
         In c cats /\
         normalize_code (cf_category_code c) = cid_categoria r /\
         ancestry_from c r)
    (prepare_datasus raw cats).
Proof.
  apply Forall_forall. intros r Hr.
  exact (prepare_datasus_row_ancestry raw cats r Hr).
Qed.

Lemma join_chapters_blocks_unique chapters blocks categories :
  NoDup (map ch_chapter_code chapters) ->
  NoDup (map blk_block_id blocks) ->
  map cf_category_code (join_chapters_blocks chapters blocks categories) =
  map cat_category_code categories.
Proof.
  intros Hch Hb. unfold join_chapters_blocks. rewrite map_map. cbn.
  rewrite <- (merge_left_unique cat_chapter_code ch_chapter_code
                categories chapters Hch) at 2.
  rewrite <- (merge_left_unique (fun cc : Category * option Chapter =>
                                   cat_block_id (fst cc)) blk_block_id
                (merge_left cat_chapter_code ch_chapter_code categories chapters)
                blocks Hb) at 2.
  now rewrite !map_map.
Qed.

(** X12. When chapter codes, block ids and category codes are unique in
    their tables, [build_structured] gives exactly one row per subcategory,
    in the order of the subcategories. *)
Theorem build_structured_one_row_per_subcategory
    chapters blocks categories subcats :
  NoDup (map ch_chapter_code chapters) ->
  NoDup (map blk_block_id blocks) ->
  NoDup (map cat_category_code categories) ->
  map cid_codigo (build_structured chapters blocks categories subcats) =
    map (fun sc => normalize_code (sub_subcategory_code sc)) subcats /\
  List.length (build_structured chapters blocks categories subcats) =
    List.length subcats.
Proof.
  intros Hch Hb Hc.
  assert (E : map cid_codigo (build_structured chapters blocks categories subcats) =
              map (fun sc => normalize_code (sub_subcategory_code sc)) subcats).
  { unfold build_structured. rewrite map_map. cbn.
    rewrite <- (merge_left_unique sub_category_code cf_category_code subcats
                  (join_chapters_blocks chapters blocks categories)) at 2.
    - now rewrite map_map.
    - now rewrite join_chapters_blocks_unique. }
  split; [exact E|].
  apply (f_equal (@List.length cell)) in E. now rewrite !length_map in E.
Qed.

Lemma build_structured_one_row_per_subcategory_witness :
  map cid_codigo
    (build_structured Samples.chapters1 Samples.blocks1 Samples.categories1
       Samples.subcats1) =
    map (fun sc => normalize_code (sub_subcategory_code sc)) Samples.subcats1 /\
  List.length
    (build_structured Samples.chapters1 Samples.blocks1 Samples.categories1
       Samples.subcats1) = List.length Samples.subcats1.
Proof.
  apply build_structured_one_row_per_subcategory.
  - simpl. constructor; [intros []|constructor].
  - simpl. constructor; [intros []|constructor].
  - simpl. constructor.
    + intros [H|[]]. discriminate H.
    + constructor; [intros []|constructor].
Defined.

(** X13. When the normalised category codes are unique, [prepare_datasus]
    gives exactly one row per row of the official list, in order; a row
    without code is kept too. *)
Theorem prepare_datasus_one_row_per_code raw cats :
  NoDup (map (fun c => normalize_code (cf_category_code c)) cats) ->
  map cid_codigo (prepare_datasus raw cats) =
    map (fun r => normalize_code (raw_codigo r)) raw /\
  List.length (prepare_datasus raw cats) = List.length raw.
Proof.
  intros Hc.
  assert (E : map cid_codigo (prepare_datasus raw cats) =
              map (fun r => normalize_code (raw_codigo r)) raw).
  { unfold prepare_datasus. rewrite map_map. cbn.
    match goal with
    | |- map _ (merge_left ?kl ?kr ?l ?r) = _ =>
        rewrite <- (merge_left_unique kl kr l r) at 2
    end.
    - now rewrite map_map.
    - now rewrite map_map. }
  split; [exact E|].
  apply (f_equal (@List.length cell)) in E. now rewrite !length_map in E.
Qed.

Lemma prepare_datasus_one_row_per_code_witness :
  map cid_codigo (prepare_datasus Samples.raw1 Samples.cats1) =
    map (fun r => normalize_code (raw_codigo r)) Samples.raw1 /\
  List.length (prepare_datasus Samples.raw1 Samples.cats1) =
    List.length Samples.raw1.
Proof.
  apply prepare_datasus_one_row_per_code.
  simpl. constructor; [intros []|constructor].
Defined.

(* ================================================================== *)
(** ** Ranges of the official distribution *)

Lemma string_compare_refl (s : string) : (s ?= s) = Eq.
Proof.
  induction s as [|c s IH]; simpl; [reflexivity|].
  unfold Ascii.compare. now rewrite N.compare_refl.
Qed.

Lemma string_leb_refl (s : string) : String.leb s s = true.
Proof. unfold String.leb. now rewrite string_compare_refl. Qed.

(** X14. A range whose start sorts after its end contains no code at all;
    a range whose start does not sort after its end contains both of its
    endpoints. *)
Theorem range_bounds (s e : string) :
  (String.leb s e = false -> forall code3, _belongs_to_range code3 s e = false) /\
  _belongs_to_range s s e = String.leb s e /\
  _belongs_to_range e s e = String.leb s e.
Proof.
  unfold _belongs_to_range, str_le. repeat split.
  - intros Hse code3.
    destruct (String.leb s code3) eqn:H1; [|reflexivity].
    destruct (String.leb code3 e) eqn:H2; [|reflexivity].
    now rewrite (string_leb_trans _ _ _ H1 H2) in Hse.
  - now rewrite string_leb_refl.
  - rewrite string_leb_refl. apply andb_true_r.
Qed.

Lemma upper_range_id (a b : string) :
  upper (a ++ "-" ++ b) = range_id (upper a, upper b).
Proof. unfold range_id. cbn [fst snd]. now rewrite !upper_app. Qed.

Lemma inferred_id_in_table (raw : list RawRange) (test : string * string -> bool)
    (id : string) :
  option_map info_id
    (option_map snd
       (find (fun it => test (fst it))
             (range_map (ranges_of raw) (titles_of raw)))) = Some id ->
  exists r,
    In r raw /\
    test (upper (strip (astype_str (CATINIC r))),
          upper (strip (astype_str (CATFIM r)))) = true /\
    id = upper (strip (astype_str (CATINIC r)) ++ "-"
                ++ strip (astype_str (CATFIM r))).
Proof.
  intros H.
  assert (H' : option_map range_id (find test (ranges_of raw)) = Some id).
  { rewrite <- range_map_first_id.
    now destruct (find _ (range_map _ _)). }
  destruct (find test (ranges_of raw)) as [k|] eqn:Hf; [|discriminate].
  injection H' as <-. apply find_some in Hf. destruct Hf as [Hin Ht].
  unfold ranges_of in Hin. apply in_map_iff in Hin.
  destruct Hin as (r & <- & Hr). exists r.
  split; [exact Hr|]. split; [exact Ht|]. now rewrite upper_range_id.
Qed.

(** X15. The identifiers that [read_datasus_official] infers point into
    its own tables, up to letter case: a category's [chapter_code] is the
    upper-cased [chapter_code] of a chapter whose range contains the
    category code, its [block_id] is the upper-cased [block_id] of a block
    whose range contains it, and a block's [chapter_code] is the
    upper-cased [chapter_code] of a chapter. *)
Theorem inferred_ids_reference_tables
    chapters_raw blocks_raw categories_raw subcats_raw :
  let tables :=
    read_datasus_official chapters_raw blocks_raw categories_raw subcats_raw in
  let chapters := fst (fst (fst tables)) in
  let blocks := snd (fst (fst tables)) in
  let categories := snd (fst tables) in
  Forall
    (fun c =>
       (forall id, cat_chapter_code c = Some id ->
          exists ch cc, In ch chapters /\ ch_chapter_code ch = Some cc /\
                        upper cc = id) /\
       (forall id, cat_block_id c = Some id ->
          exists b bid, In b blocks /\ blk_block_id b = Some bid /\
                        upper bid = id))
    categories /\
  Forall
    (fun b =>
       forall id, blk_chapter_code b = Some id ->
         exists ch cc, In ch chapters /\ ch_chapter_code ch = Some cc /\
                       upper cc = id)
    blocks.
Proof.
  cbv zeta. cbn [read_datasus_official fst snd]. split.
  - apply Forall_forall. intros c Hc. apply in_map_iff in Hc.
    destruct Hc as (rc & <- & _). cbn [cat_chapter_code cat_block_id].
    split; intros id Hid; rewrite find_range_find in Hid;
      apply inferred_id_in_table in Hid; destruct Hid as (r & Hr & _ & ->).
    + eexists _, _. split; [apply in_map_iff; exists r; split;
                             [reflexivity|exact Hr]|].
      cbn. split; reflexivity.
    + eexists _, _. split; [apply in_map_iff; exists r; split;
                             [reflexivity|exact Hr]|].
      cbn. split; reflexivity.
  - apply Forall_forall. intros b Hb. apply in_map_iff in Hb.
    destruct Hb as (rb & <- & _). cbn [blk_chapter_code].
    intros id Hid. rewrite find_block_chapter_find in Hid.
    apply inferred_id_in_table in Hid. destruct Hid as (r & Hr & _ & ->).
    eexists _, _. split; [apply in_map_iff; exists r; split;
                           [reflexivity|exact Hr]|].
    cbn. split; reflexivity.
Qed.

(** *** The dictionaries of ranges *)

Lemma range_eqb_refl (k : string * string) : range_eqb k k = true.
Proof. unfold range_eqb. now rewrite !String.eqb_refl. Qed.

Lemma dict_set_keys (k : string * string) (v : RangeInfo)
    (d : list ((string * string) * RangeInfo)) :
  map fst (dict_set range_eqb k v d) =
  if existsb (range_eqb k) (map fst d) then map fst d
  else (map fst d ++ [k])%list.
Proof.
  induction d as [|[k' v'] d IH]; simpl; [reflexivity|].
  destruct (range_eqb k k') eqn:E; simpl; [reflexivity|].
  rewrite IH. now destruct (existsb (range_eqb k) (map fst d)).
Qed.

Lemma range_seen_In (k : string * string) (ks : list (string * string)) :
  existsb (range_eqb k) ks = true <-> In k ks.
Proof.
  rewrite existsb_exists. split.
  - intros (x & Hx & E). apply range_eqb_eq in E. now subst.
  - intros H. exists k. split; [exact H|apply range_eqb_refl].
Qed.

Lemma range_map_keys_from (rts : list ((string * string) * string))
    (d : list ((string * string) * RangeInfo)) :
  NoDup (map fst d) ->
  NoDup (map fst (fold_left range_map_step rts d)) /\
  forall k, In k (map fst (fold_left range_map_step rts d)) <->
            In k (map fst d) \/ In k (map fst rts).
Proof.
  revert d. induction rts as [|[[s e] t] rts IH]; intros d Hd.
  - cbn [fold_left map]. split; [exact Hd|]. intros k. simpl. tauto.
  - cbn [fold_left]. unfold range_map_step at 2 4. cbn [fst snd].
    set (v := {| info_id := s ++ "-" ++ e; info_title := t |}).
    assert (Hkeys := dict_set_keys (s, e) v d).
    assert (Hnd : NoDup (map fst (dict_set range_eqb (s, e) v d))).
    { rewrite Hkeys.
      destruct (existsb (range_eqb (s, e)) (map fst d)) eqn:Hex; [exact Hd|].
      apply NoDup_app; [exact Hd|repeat constructor; intros []|].
      intros x Hx [<-|[]].
      apply range_seen_In in Hx. congruence. }
    destruct (IH _ Hnd) as [IH1 IH2]. split; [exact IH1|].
    intros k. rewrite IH2, Hkeys. cbn [map fst].
    destruct (existsb (range_eqb (s, e)) (map fst d)) eqn:Hex.
    + apply range_seen_In in Hex. simpl. split; [tauto|].
      intros [H|[<-|H]]; auto.
    + rewrite in_app_iff. simpl. tauto.
Qed.

(** X16. The dictionaries [block_map] and [chapter_map] hold each range of
    their file once, however often the file lists it, and nothing else;
    the identifier stored under a range is "start-end". *)
Theorem range_map_keys (raw : list RawRange) :
  NoDup (map fst (range_map (ranges_of raw) (titles_of raw))) /\
  (forall k, In k (map fst (range_map (ranges_of raw) (titles_of raw))) <->
             In k (ranges_of raw)) /\
  Forall (fun it => info_id (snd it) = range_id (fst it))
         (range_map (ranges_of raw) (titles_of raw)).
Proof.
  unfold range_map.
  assert (Hfst : map fst (combine (ranges_of raw) (titles_of raw)) = ranges_of raw).
  { unfold ranges_of, titles_of.
    induction raw as [|r raw IH]; [reflexivity|].
    cbn [map combine fst]. f_equal. exact IH. }
  destruct (range_map_keys_from (combine (ranges_of raw) (titles_of raw)) [])
    as [Hnd Hin]; [constructor|].
  split; [exact Hnd|]. split.
  - intros k. rewrite Hin, Hfst. simpl. tauto.
  - generalize (combine (ranges_of raw) (titles_of raw)).
    intros rts.
    assert (H0 : Forall (fun it : (string * string) * RangeInfo =>
                           info_id (snd it) = range_id (fst it)) [])
      by constructor.
    revert H0. generalize (@nil ((string * string) * RangeInfo)).
    induction rts as [|[[s e] t] rts IH]; intros d Hd; [exact Hd|].
    cbn [fold_left]. apply IH. unfold range_map_step. cbn [fst snd].
    apply (dict_set_first_id (fun _ => true)); [exact Hd|reflexivity].
Qed.

(* ================================================================== *)
(** ** Formatted subcategory codes *)








(* ================================================================== *)
(** ** Locating the files of the official distribution *)

Lemma string_app_assoc (a b c : string) : (a ++ b) ++ c = a ++ (b ++ c).
Proof. induction a as [|x a IH]; simpl; [reflexivity|now rewrite IH]. Qed.

Lemma startswith_split (p s : string) :
  startswith p s = true <-> exists y, s = p ++ y.
Proof.
  revert s. induction p as [|a p IH]; intros s; simpl.
  - split; [now exists s|reflexivity].
  - destruct s as [|b s].
    + split; [discriminate|]. intros (y & E). discriminate E.
    + rewrite andb_true_iff, Ascii.eqb_eq, IH. split.
      * intros (-> & y & ->). now exists y.
      * intros (y & [= -> ->]). split; [reflexivity|now exists y].
Qed.

(** [p in s] holds exactly when [s] is [p] between two strings. *)
Lemma contains_str_split (p s : string) :
  contains_str p s = true <-> exists x y, s = x ++ p ++ y.
Proof.
  induction s as [|b s IH].
  - cbn [contains_str]. rewrite orb_false_r, startswith_split. split.
    + intros (y & E). now exists "", y.
    + intros (x & y & E). destruct x as [|c x]; [now exists y|discriminate E].
  - cbn [contains_str]. rewrite orb_true_iff, startswith_split, IH. split.
    + intros [(y & E)|(x & y & ->)]; [now exists "", y|].
      now exists (String b x), y.
    + intros (x & y & E). destruct x as [|c x].
      * left. now exists y.
      * right. injection E as -> ->. now exists x, y.
Qed.

Lemma contains_str_trans (a b s : string) :
  contains_str a b = true -> contains_str b s = true ->
  contains_str a s = true.
Proof.
  rewrite !contains_str_split.
  intros (x & y & ->) (x' & y' & ->). exists (x' ++ x), (y ++ y').
  now rewrite !string_app_assoc.
Qed.

Lemma find_file_find (dir_path fragment : string) (files : list string) :
  _find_file_by_fragment dir_path fragment files =
  option_map (os_path_join dir_path) (find (csv_name_matches fragment) files).
Proof.
  induction files as [|f files IH]; simpl; [reflexivity|].
  now destruct (csv_name_matches fragment f).
Qed.

(** X19. [_find_file_by_fragment] answers the path of the first file of
    the listing whose lower-cased name contains the lower-cased fragment
    and ends in ".csv", and fails with [FileNotFoundError] exactly when the
    listing holds no such file; an empty directory always fails. *)
Theorem find_file_first_csv_match (dir_path fragment : string)
    (files : list string) :
  (forall p,
      _find_file_by_fragment dir_path fragment files = Some p <->
      exists pre f post,
        files = (pre ++ f :: post)%list /\
        p = os_path_join dir_path f /\
        contains_str (lower fragment) (lower f) = true /\
        endswith ".csv" (lower f) = true /\
        Forall (fun g => csv_name_matches fragment g = false) pre) /\
  (_find_file_by_fragment dir_path fragment files = None <->
   Forall (fun g => csv_name_matches fragment g = false) files) /\
  _find_file_by_fragment dir_path fragment [] = None.
Proof.
  rewrite find_file_find. repeat split.
  - destruct (find _ files) as [f|] eqn:Hf; [|discriminate].
    intros [= <-]. apply find_first_split in Hf.
    destruct Hf as (pre & post & E & Hx & Hpre).
    unfold csv_name_matches in Hx. apply andb_true_iff in Hx.
    exists pre, f, post. now repeat split.
  - intros (pre & f & post & E & -> & H1 & H2 & Hpre).
    assert (find (csv_name_matches fragment) files = Some f) as ->;
      [|reflexivity].
    apply find_first_split. exists pre, post. repeat split; auto.
    unfold csv_name_matches. now rewrite H1, H2.
  - intros H. apply find_first_none. now destruct (find _ files).
  - intros H. apply find_first_none in H. now rewrite H.
Qed.

(** X20. The fragment CATEGORIAS also matches the subcategories file:
    every name that matches SUBCATEGORIAS matches CATEGORIAS.  So when the
    subcategories file comes in the listing before any other match of
    CATEGORIAS, lines 221 and 222 give the same path: the categories are
    read from the subcategories file. *)
Theorem categorias_lookup_catches_subcategorias (dir_path : string) :
  (forall f, csv_name_matches "SUBCATEGORIAS" f = true ->
             csv_name_matches "CATEGORIAS" f = true) /\
  (forall files p,
      _find_file_by_fragment dir_path "SUBCATEGORIAS" files = Some p ->
      exists q, _find_file_by_fragment dir_path "CATEGORIAS" files = Some q) /\
  (forall pre f post,
      Forall (fun g => csv_name_matches "CATEGORIAS" g = false) pre ->
      csv_name_matches "SUBCATEGORIAS" f = true ->
      _find_file_by_fragment dir_path "CATEGORIAS" (pre ++ f :: post) =
        Some (os_path_join dir_path f) /\
      _find_file_by_fragment dir_path "SUBCATEGORIAS" (pre ++ f :: post) =
        Some (os_path_join dir_path f)).
Proof.
  assert (Hmono : forall f, csv_name_matches "SUBCATEGORIAS" f = true ->
                            csv_name_matches "CATEGORIAS" f = true).
  { intros f. unfold csv_name_matches. rewrite !andb_true_iff.
    intros [H1 H2]. split; [|exact H2].
    apply contains_str_trans with (lower "SUBCATEGORIAS"); [reflexivity|exact H1]. }
  split; [exact Hmono|]. split.
  - intros files p. rewrite !find_file_find.
    destruct (find (csv_name_matches "SUBCATEGORIAS") files) as [f|] eqn:Hf;
      [|discriminate].
    intros _. apply find_some in Hf. destruct Hf as [Hin Hm].
    destruct (find (csv_name_matches "CATEGORIAS") files) as [g|] eqn:Hg.
    + now eexists.
    + apply find_first_none in Hg. rewrite Forall_forall in Hg.
      specialize (Hg f Hin). cbv beta in Hg.
      rewrite (Hmono f Hm) in Hg. discriminate Hg.
  - intros pre f post Hpre Hm. rewrite !find_file_find.
    assert (find (csv_name_matches "CATEGORIAS") (pre ++ f :: post) = Some f) as ->.
    { apply find_first_split. exists pre, post. repeat split; auto. }
    assert (find (csv_name_matches "SUBCATEGORIAS") (pre ++ f :: post) = Some f) as ->.
    { apply find_first_split. exists pre, post. repeat split; auto.
      eapply Forall_impl; [|exact Hpre]. cbv beta. intros g Hg.
      destruct (csv_name_matches "SUBCATEGORIAS" g) eqn:E; [|reflexivity].
      now rewrite (Hmono g E) in Hg. }
    now split.
Qed.

(** The listing of a directory as the official site ships it *)
Example categorias_lookup_sample :
  _find_file_by_fragment "/data" "CATEGORIAS"
    ["CID-10-CAPITULOS.CSV"; "CID-10-GRUPOS.CSV"; "CID-10-SUBCATEGORIAS.CSV";
     "CID-10-CATEGORIAS.CSV"] = Some "/data/CID-10-SUBCATEGORIAS.CSV" /\
  _find_file_by_fragment "/data/" "GRUPOS"
    ["LEIAME.TXT"; "cid-10-grupos.csv"] = Some "/data/cid-10-grupos.csv" /\
  _find_file_by_fragment "/data" "GRUPOS" ["CID-10-GRUPOS.TXT"] = None.
Proof. repeat split. Qed.

(* ================================================================== *)
(** ** Order of the consolidated frame, and the categories of [run_etl] *)

Lemma drop_duplicates_from_app {A : Type} (key : A -> cell)
    (seen : list cell) (df1 df2 : list A) :
  drop_duplicates_from key seen (df1 ++ df2) =
  (drop_duplicates_from key seen df1 ++
   drop_duplicates_from key
     (rev (map key (drop_duplicates_from key seen df1)) ++ seen) df2)%list.
Proof.
  revert seen. induction df1 as [|x df1 IH]; intros seen; [reflexivity|].
  cbn [app drop_duplicates_from].
  destruct (existsb (cell_eqb (key x)) seen); [apply IH|].
  cbn [app map rev]. rewrite IH. now rewrite <- app_assoc.
Qed.

(** X21. In the consolidated frame the rows of the structured source come
    first and the rows of the official source after them. *)
Theorem structured_rows_come_first (S O : list Row) :
  Forall (fun r => fonte r = Estruturada) S ->
  Forall (fun r => fonte r = DATASUS) O ->
  exists A B,
    consolidate S O = (A ++ B)%list /\
    Forall (fun r => fonte r = Estruturada) A /\
    Forall (fun r => fonte r = DATASUS) B.
Proof.
  intros HS HO. rewrite (consolidate_tagged S O HS HO).
  unfold drop_duplicates. rewrite drop_duplicates_from_app.
  eexists _, _. split; [reflexivity|].
  rewrite Forall_forall in HS, HO.
  split; apply Forall_forall; intros r Hr;
    apply drop_duplicates_from_in in Hr; destruct Hr as [Hr _];
    apply in_map_iff in Hr; destruct Hr as (r0 & <- & H0);
    rewrite fonte_renormalize; auto.
Qed.

Lemma structured_rows_come_first_witness :
  exists A B,
    consolidate [Samples.structured_sparse] [Samples.official_full] =
      (A ++ B)%list /\
    Forall (fun r => fonte r = Estruturada) A /\
    Forall (fun r => fonte r = DATASUS) B.
Proof.
  apply structured_rows_come_first; repeat constructor.
Defined.


